(** * A shallow embedding of the RAG document store of [mcp_server.py]

    The development follows the source file function by function:
    - [PyStr]: the Python string operations the chunker uses (slicing with
      negative indices, [rfind], [strip]);
    - [PyDict]: insertion-ordered dictionaries ([metadata["documents"]],
      [metadata["chunks"]] and the three storage directories);
    - [Chunker]: [_create_text_chunks], a [while] loop, run with fuel;
    - [Store]: the state of [RAGSystem] and the five tools [upload_pdf],
      [search_documents], [list_documents], [delete_document] and
      [get_rag_stats], over the external collaborators (the MD5 digest, the
      sentence encoder and the FAISS flat index search). *)

From Stdlib Require Import ZArith NArith List Lia Bool String Ascii Sorted.
Import ListNotations.
Open Scope Z_scope.

(** ** Python strings *)

Module PyStr.

(** A [str] is a sequence of Unicode code points. *)
Definition str := list N.

Definition of_string (s : string) : str :=
  map N_of_ascii (list_ascii_of_string s).

Definition len (s : str) : Z := Z.of_nat (List.length s).

(** Normalisation of one bound of a slice [s[a:b]] on a string of length
    [n]: a negative bound counts from the end, and every bound is clipped
    into [0..n]. *)
Definition clamp (n i : Z) : Z :=
  if i <? 0 then Z.max 0 (i + n) else Z.min i n.

Definition slice (s : str) (a b : Z) : str :=
  let lo := clamp (len s) a in
  let hi := clamp (len s) b in
  firstn (Z.to_nat (hi - lo)) (skipn (Z.to_nat lo) s).

(** [s[:n]] for a non-negative constant [n]. *)
Definition prefix (n : nat) (s : str) : str := firstn n s.

Fixpoint rfind_from (s : str) (c : N) (i acc : Z) : Z :=
  match s with
  | [] => acc
  | x :: r => rfind_from r c (i + 1) (if N.eqb x c then i else acc)
  end.

(** [s.rfind(c)] for a one-character needle: the highest index of [c], or
    [-1]. *)
Definition rfind (s : str) (c : N) : Z := rfind_from s c 0 (-1).

(** [str.isspace] on one code point. *)
Definition isspace (c : N) : bool :=
  (((9 <=? c) && (c <=? 13)) || ((28 <=? c) && (c <=? 32))
   || (c =? 133) || (c =? 160) || (c =? 5760)
   || ((8192 <=? c) && (c <=? 8202)) || (c =? 8232) || (c =? 8233)
   || (c =? 8239) || (c =? 8287) || (c =? 12288))%N.

Fixpoint lstrip (s : str) : str :=
  match s with
  | [] => []
  | c :: r => if isspace c then lstrip r else s
  end.

Definition rstrip (s : str) : str := rev (lstrip (rev s)).

Definition strip (s : str) : str := rstrip (lstrip s).

(** Truth value of a string: it is not empty. *)
Definition truthy (s : str) : bool :=
  match s with [] => false | _ :: _ => true end.

Definition period : N := 46.
Definition newline : N := 10.

End PyStr.

(** ** The chunker *)

Module Chunker.
Import PyStr.

(** One run of the [while] loop of [_create_text_chunks], from the state
    [(start, chunks)].  [None] means that the fuel ran out before the loop
    was left. *)
Fixpoint chunk_loop (fuel : nat) (text : str) (chunk_size overlap : Z)
    (start : Z) (chunks : list str) : option (list str) :=
  match fuel with
  | O => None
  | S fuel' =>
    if start <? len text then
      let end0 := start + chunk_size in
      let chunk0 := slice text start end0 in
      let '(chunk, end_) :=
        if end0 <? len text then
          let last_period := rfind chunk0 period in
          let last_newline := rfind chunk0 newline in
          let break_point := Z.max last_period last_newline in
          if start + chunk_size / 2 <? break_point
          then (slice text start (break_point + 1), break_point + 1)
          else (chunk0, end0)
        else (chunk0, end0) in
      let chunks' := chunks ++ [strip chunk] in
      let start' := end_ - overlap in
      if len text <=? start' then Some chunks'
      else chunk_loop fuel' text chunk_size overlap start' chunks'
    else Some chunks
  end.

(** [_create_text_chunks(text, chunk_size, overlap)]. *)
Definition _create_text_chunks (fuel : nat) (text : str)
    (chunk_size overlap : Z) : option (list str) :=
  option_map (filter (fun chunk => truthy (strip chunk)))
             (chunk_loop fuel text chunk_size overlap 0 []).

(** The chunker returns [r] when some amount of fuel lets the loop finish. *)
Definition returns (text : str) (chunk_size overlap : Z) (r : list str) : Prop :=
  exists fuel, _create_text_chunks fuel text chunk_size overlap = Some r.

Definition terminates (text : str) (chunk_size overlap : Z) : Prop :=
  exists r, returns text chunk_size overlap r.

(** The defaults of the signature. *)
Definition default_chunk_size : Z := 1000.
Definition default_overlap : Z := 200.

(** The call [_create_text_chunks(text_content)] of [upload_pdf]: with the
    default parameters [length text + 1] iterations are enough (lemma
    [default_chunks_returns] below), so the call is a total function. *)
Definition default_chunks (text : str) : list str :=
  match _create_text_chunks (S (List.length text)) text
          default_chunk_size default_overlap with
  | Some r => r
  | None => []
  end.

End Chunker.

(** ** Insertion-ordered dictionaries *)

Module PyDict.
Section Dict.
Context {K V : Type} (eq_dec : forall x y : K, {x = y} + {x <> y}).

(** A [dict] keeps its items in insertion order. *)
Definition dict := list (K * V).

(** [d.get(k)]. *)
Fixpoint get (d : dict) (k : K) : option V :=
  match d with
  | [] => None
  | (k', v) :: r => if eq_dec k k' then Some v else get r k
  end.

(** [k in d]. *)
Definition mem (d : dict) (k : K) : bool :=
  match get d k with Some _ => true | None => false end.

(** [d[k] = v]: an existing key keeps its place, a new one goes last. *)
Fixpoint set (d : dict) (k : K) (v : V) : dict :=
  match d with
  | [] => [(k, v)]
  | (k', v') :: r =>
    if eq_dec k k' then (k', v) :: r else (k', v') :: set r k v
  end.

(** [del d[k]], guarded by [k in d] at every use in the source. *)
Fixpoint del (d : dict) (k : K) : dict :=
  match d with
  | [] => []
  | (k', v') :: r => if eq_dec k k' then r else (k', v') :: del r k
  end.

(** [d.keys()], in insertion order. *)
Definition keys (d : dict) : list K := map fst d.

(** [len(d)]. *)
Definition size (d : dict) : Z := Z.of_nat (List.length d).
End Dict.
End PyDict.

(** ** The store *)

Module Store.
Import PyStr PyDict.

Definition str_eq_dec : forall x y : str, {x = y} + {x <> y} :=
  list_eq_dec N.eq_dec.

(** The external collaborators of [mcp_server.py]: [hashlib.md5(..).hexdigest()],
    [SentenceTransformer.encode] and [faiss.IndexFlatIP.search].  A flat index
    is the list of its rows; [index_search rows q k] is the list
    [zip(scores[0], indices[0])] of [index.search(q, k)], or [None] when the
    call raises. *)
Class Collaborators := {
  vec : Type;
  score : Type;
  md5_hexdigest : str -> str;
  encode : str -> vec;
  index_search : list vec -> vec -> Z -> option (list (score * Z))
}.

(** An entry of [metadata["chunks"]]. *)
Record chunk_meta := {
  document_id : str;
  chunk_index : Z;
  text_preview : str;
  chunk_created_at : str
}.

(** An entry of [metadata["documents"]]. *)
Record doc_info := {
  name : str;
  original_path : str;
  chunk_ids : list Z;
  chunk_count : Z;
  created_at : str
}.

(** The step of the per-chunk loop of [upload_pdf] at which an exception is
    raised: writing the chunk file, encoding, [index.add], [np.save]. *)
Inductive stage := AtWriteChunk | AtEncode | AtIndexAdd | AtSaveEmbedding.

(** What [upload_pdf] observes of its argument and of the outside world:
    [str(Path(file_path))], [exists()], [suffix.lower()], [stem], the value
    of [_extract_pdf_text] ([None] when it raises), the readings of
    [datetime.now().isoformat()], and the chunk and step at which a
    collaborator raises, if one does. *)
Record pdf_file := {
  path_str : str;
  path_exists : bool;
  suffix_lower : str;
  stem : str;
  extracted : option str;
  clock : nat -> str;
  fault : option (nat * stage)
}.

Inductive error :=
| FileNotFound | NotAPdf | NoTextContent | ProcessingFailed
| NoDocuments | SearchFailed | DocumentNotFound.

Inductive result (A : Type) :=
| Ok (payload : A)
| Err (e : error).
Arguments Ok {A} payload.
Arguments Err {A} e.

Record upload_payload := {
  up_document_id : str;
  up_document_name : str;
  chunks_created : Z
}.

Record document_entry := {
  le_document_id : str;
  le_name : str;
  le_chunk_count : Z;
  le_created_at : str
}.

Record statistics := {
  total_documents : Z;
  total_chunks : Z;
  embedding_dimension : Z
}.

Section WithCollaborators.
Context `{C : Collaborators}.

(** The state of [rag_system]: the three entries of [metadata], the flat
    index, and the contents of the three storage directories (file name
    without its extension to file content).  [id_log] is ghost state: every
    value read from [next_chunk_id] as a chunk id, oldest first. *)
Record rag_system := {
  documents : @dict str doc_info;
  chunks : @dict Z chunk_meta;
  next_chunk_id : Z;
  index : list vec;
  documents_dir : @dict str str;
  chunks_dir : @dict Z str;
  embeddings_dir : @dict Z vec;
  id_log : list Z
}.

(** [_load_metadata] and [_load_or_create_index] on an empty storage
    directory. *)
Definition empty_system : rag_system :=
  {| documents := []; chunks := []; next_chunk_id := 0; index := [];
     documents_dir := []; chunks_dir := []; embeddings_dir := [];
     id_log := [] |}.

(** [index.ntotal]. *)
Definition ntotal (s : rag_system) : Z := Z.of_nat (List.length (index s)).

Record search_hit := {
  hit_chunk_id : Z;
  hit_score : score;
  hit_text : str;
  hit_document_name : str;
  hit_document_id : option str;
  hit_chunk_index : option Z
}.

Definition with_next_chunk_id (s : rag_system) (n : Z) (log : list Z) :=
  {| documents := documents s; chunks := chunks s; next_chunk_id := n;
     index := index s; documents_dir := documents_dir s;
     chunks_dir := chunks_dir s; embeddings_dir := embeddings_dir s;
     id_log := log |}.

Definition with_chunks_dir (s : rag_system) (d : @dict Z str) :=
  {| documents := documents s; chunks := chunks s;
     next_chunk_id := next_chunk_id s; index := index s;
     documents_dir := documents_dir s; chunks_dir := d;
     embeddings_dir := embeddings_dir s; id_log := id_log s |}.

Definition with_index (s : rag_system) (rows : list vec) :=
  {| documents := documents s; chunks := chunks s;
     next_chunk_id := next_chunk_id s; index := rows;
     documents_dir := documents_dir s; chunks_dir := chunks_dir s;
     embeddings_dir := embeddings_dir s; id_log := id_log s |}.

Definition with_embeddings_dir (s : rag_system) (d : @dict Z vec) :=
  {| documents := documents s; chunks := chunks s;
     next_chunk_id := next_chunk_id s; index := index s;
     documents_dir := documents_dir s; chunks_dir := chunks_dir s;
     embeddings_dir := d; id_log := id_log s |}.

Definition with_chunks (s : rag_system) (d : @dict Z chunk_meta) :=
  {| documents := documents s; chunks := d;
     next_chunk_id := next_chunk_id s; index := index s;
     documents_dir := documents_dir s; chunks_dir := chunks_dir s;
     embeddings_dir := embeddings_dir s; id_log := id_log s |}.

Definition with_documents (s : rag_system) (d : @dict str doc_info) :=
  {| documents := d; chunks := chunks s;
     next_chunk_id := next_chunk_id s; index := index s;
     documents_dir := documents_dir s; chunks_dir := chunks_dir s;
     embeddings_dir := embeddings_dir s; id_log := id_log s |}.

Definition with_documents_dir (s : rag_system) (d : @dict str str) :=
  {| documents := documents s; chunks := chunks s;
     next_chunk_id := next_chunk_id s; index := index s;
     documents_dir := d; chunks_dir := chunks_dir s;
     embeddings_dir := embeddings_dir s; id_log := id_log s |}.

Definition ellipsis : str := [46; 46; 46]%N.

(** [chunk[:100] + "..." if len(chunk) > 100 else chunk]. *)
Definition preview (chunk : str) : str :=
  if 100 <? len chunk then prefix 100 chunk ++ ellipsis else chunk.

Definition raises_at (f : pdf_file) (i : nat) (st : stage) : bool :=
  match fault f with
  | Some (j, st') =>
    Nat.eqb i j &&
    match st, st' with
    | AtWriteChunk, AtWriteChunk | AtEncode, AtEncode
    | AtIndexAdd, AtIndexAdd | AtSaveEmbedding, AtSaveEmbedding => true
    | _, _ => false
    end
  | None => false
  end.

(** The body of [for i, chunk in enumerate(chunks)] in [upload_pdf], from
    chunk number [i] on.  The result is the state reached, the list
    [chunk_ids], and whether the loop ran to its end ([false]: an exception
    left it). *)
Fixpoint upload_loop (f : pdf_file) (doc_id : str) (i : nat)
    (todo : list str) (s : rag_system) (ids : list Z)
    : rag_system * list Z * bool :=
  match todo with
  | [] => (s, ids, true)
  | chunk :: rest =>
    let chunk_id := next_chunk_id s in
    let s1 := with_next_chunk_id s (chunk_id + 1) (id_log s ++ [chunk_id]) in
    if raises_at f i AtWriteChunk then (s1, ids, false) else
    let s2 := with_chunks_dir s1 (set Z.eq_dec (chunks_dir s1) chunk_id chunk) in
    if raises_at f i AtEncode then (s2, ids, false) else
    let embedding := encode chunk in
    if raises_at f i AtIndexAdd then (s2, ids, false) else
    let s3 := with_index s2 (index s2 ++ [embedding]) in
    if raises_at f i AtSaveEmbedding then (s3, ids, false) else
    let s4 := with_embeddings_dir s3
                (set Z.eq_dec (embeddings_dir s3) chunk_id embedding) in
    let s5 := with_chunks s4
                (set Z.eq_dec (chunks s4) chunk_id
                   {| document_id := doc_id;
                      chunk_index := Z.of_nat i;
                      text_preview := preview chunk;
                      chunk_created_at := clock f i |}) in
    upload_loop f doc_id (S i) rest s5 (ids ++ [chunk_id])
  end.

Definition dot_pdf : str := [46; 112; 100; 102]%N.

(** [document_name or file_path.stem]. *)
Definition name_or_stem (document_name : option str) (f : pdf_file) : str :=
  match document_name with
  | Some n => if truthy n then n else stem f
  | None => stem f
  end.

(** [upload_pdf(file_path, document_name)].  [_save_metadata] and
    [_save_index] copy the state to disk and leave it as it is. *)
Definition upload_pdf (s : rag_system) (f : pdf_file)
    (document_name : option str) : rag_system * result upload_payload :=
  if negb (path_exists f) then (s, Err FileNotFound) else
  if negb (if str_eq_dec (suffix_lower f) dot_pdf then true else false)
  then (s, Err NotAPdf) else
  let doc_id := md5_hexdigest (path_str f) in
  let doc_name := name_or_stem document_name f in
  match extracted f with
  | None => (s, Err ProcessingFailed)
  | Some text_content =>
    if negb (truthy (strip text_content)) then (s, Err NoTextContent) else
    let s0 := with_documents_dir s
                (set str_eq_dec (documents_dir s) doc_id text_content) in
    let chunks := Chunker.default_chunks text_content in
    match upload_loop f doc_id 0 chunks s0 [] with
    | (s1, _, false) => (s1, Err ProcessingFailed)
    | (s1, ids, true) =>
      let s2 := with_documents s1
                  (set str_eq_dec (documents s1) doc_id
                     {| name := doc_name;
                        original_path := path_str f;
                        chunk_ids := ids;
                        chunk_count := Z.of_nat (List.length chunks);
                        created_at := clock f (List.length chunks) |}) in
      (s2, Ok {| up_document_id := doc_id;
                 up_document_name := doc_name;
                 chunks_created := Z.of_nat (List.length chunks) |})
    end
  end.

Definition unknown : str := of_string "Unknown".

(** The body of [for score, idx in zip(scores[0], indices[0])] in
    [search_documents]. *)
Definition join_hit (s : rag_system) (h : score * Z) : list search_hit :=
  let '(sc, idx) := h in
  if idx =? -1 then [] else
  match get Z.eq_dec (chunks_dir s) idx with
  | None => []
  | Some chunk_text =>
    let chunk_meta := get Z.eq_dec (chunks s) idx in
    let doc_meta :=
      get str_eq_dec (documents s)
        (match chunk_meta with Some m => document_id m | None => [] end) in
    [{| hit_chunk_id := idx;
        hit_score := sc;
        hit_text := chunk_text;
        hit_document_name :=
          match doc_meta with Some d => name d | None => unknown end;
        hit_document_id := option_map document_id chunk_meta;
        hit_chunk_index := option_map chunk_index chunk_meta |}]
  end.

(** [search_documents(query, top_k)]. *)
Definition search_documents (s : rag_system) (query : str) (top_k : Z)
    : result (list search_hit) :=
  if ntotal s =? 0 then Err NoDocuments else
  let query_embedding := encode query in
  match index_search (index s) query_embedding (Z.min top_k (ntotal s)) with
  | None => Err SearchFailed
  | Some hits => Ok (flat_map (join_hit s) hits)
  end.

(** [list_documents()]. *)
Definition list_documents (s : rag_system) : list document_entry :=
  map (fun '(doc_id, doc_info) =>
         {| le_document_id := doc_id;
            le_name := name doc_info;
            le_chunk_count := chunk_count doc_info;
            le_created_at := created_at doc_info |})
      (documents s).

(** One turn of [for chunk_id in chunk_ids] in [delete_document]: unlink
    the chunk file and the embedding file when they exist, and drop the
    entry of [metadata["chunks"]] when there is one. *)
Definition delete_chunk (s : rag_system) (chunk_id : Z) : rag_system :=
  let s1 := with_chunks_dir s (del Z.eq_dec (chunks_dir s) chunk_id) in
  let s2 := with_embeddings_dir s1 (del Z.eq_dec (embeddings_dir s1) chunk_id) in
  with_chunks s2 (del Z.eq_dec (chunks s2) chunk_id).

(** The rebuild of [delete_document]: a fresh flat index that receives, in
    the order of [metadata["chunks"].keys()], the saved embedding of every
    chunk that still has one. *)
Definition rebuild_index (s : rag_system) : list vec :=
  flat_map (fun chunk_id =>
              match get Z.eq_dec (embeddings_dir s) chunk_id with
              | Some embedding => [embedding]
              | None => []
              end)
           (keys (chunks s)).

(** [delete_document(document_id)]: the answer carries the name of the
    deleted document. *)
Definition delete_document (s : rag_system) (doc_id : str)
    : rag_system * result str :=
  match get str_eq_dec (documents s) doc_id with
  | None => (s, Err DocumentNotFound)
  | Some doc_info =>
    let s1 := fold_left delete_chunk (chunk_ids doc_info) s in
    let s2 := with_documents_dir s1 (del str_eq_dec (documents_dir s1) doc_id) in
    let s3 := with_documents s2 (del str_eq_dec (documents s2) doc_id) in
    let s4 := with_index s3 (rebuild_index s3) in
    (s4, Ok (name doc_info))
  end.

(** [get_rag_stats()], without the byte counts of the storage directory. *)
Definition get_rag_stats (s : rag_system) : statistics :=
  {| total_documents := size (documents s);
     total_chunks := size (chunks s);
     embedding_dimension := 384 |}.

(** The five tools as operations on the store. *)
Inductive op :=
| Upload (f : pdf_file) (document_name : option str)
| Search (query : str) (top_k : Z)
| ListDocuments
| Delete (doc_id : str)
| Stats.

Definition step (s : rag_system) (o : op) : rag_system :=
  match o with
  | Upload f document_name => fst (upload_pdf s f document_name)
  | Delete doc_id => fst (delete_document s doc_id)
  | Search _ _ | ListDocuments | Stats => s
  end.

Definition run (ops : list op) (s : rag_system) : rag_system :=
  fold_left step ops s.

(** An operation is completed when no collaborator raised inside it. *)
Definition completed (o : op) : Prop :=
  match o with
  | Upload f _ => fault f = None
  | _ => True
  end.

(** The row of the index that holds the saved embedding of a chunk. *)
Definition row_holds (s : rag_system) (row : Z) (chunk_id : Z) : Prop :=
  0 <= row /\
  exists v, get Z.eq_dec (embeddings_dir s) chunk_id = Some v /\
            nth_error (index s) (Z.to_nat row) = Some v.

End WithCollaborators.
End Store.

(** * Properties of the chunker *)

Section ChunkerFacts.
Import PyStr Chunker.

Definition nonspace (c : N) : bool := negb (isspace c).

Lemma existsb_rev_eq (f : N -> bool) (l : str) :
  existsb f (rev l) = existsb f l.
Proof.
  induction l as [|x l IH]; simpl; [reflexivity|].
  rewrite existsb_app, IH. simpl. rewrite orb_false_r. apply orb_comm.
Qed.

Lemma truthy_rev (l : str) : truthy (rev l) = truthy l.
Proof.
  destruct l as [|x l]; simpl; [reflexivity|].
  destruct (rev l); reflexivity.
Qed.

Lemma truthy_lstrip (s : str) : truthy (lstrip s) = existsb nonspace s.
Proof.
  induction s as [|c r IH]; simpl; [reflexivity|].
  unfold nonspace at 1. destruct (isspace c); simpl; [exact IH | reflexivity].
Qed.

Lemma nonspace_lstrip (s : str) :
  existsb nonspace (lstrip s) = existsb nonspace s.
Proof.
  induction s as [|c r IH]; simpl; [reflexivity|].
  destruct (isspace c) eqn:E; simpl.
  - rewrite IH. unfold nonspace at 2. rewrite E. reflexivity.
  - reflexivity.
Qed.

Lemma truthy_strip (s : str) : truthy (strip s) = existsb nonspace s.
Proof.
  unfold strip, rstrip.
  now rewrite truthy_rev, truthy_lstrip, existsb_rev_eq, nonspace_lstrip.
Qed.

Lemma nonspace_strip (s : str) :
  existsb nonspace (strip s) = existsb nonspace s.
Proof.
  unfold strip, rstrip.
  now rewrite existsb_rev_eq, nonspace_lstrip, existsb_rev_eq, nonspace_lstrip.
Qed.

Lemma truthy_strip_strip (s : str) :
  truthy (strip (strip s)) = truthy (strip s).
Proof. now rewrite !truthy_strip, nonspace_strip. Qed.

Lemma slice_whole (s : str) (b : Z) : len s <= b -> slice s 0 b = s.
Proof.
  intros Hb. unfold slice, clamp.
  assert (Hl : 0 <= len s) by (unfold len; lia).
  change (0 <? 0) with false. cbv iota.
  destruct (b <? 0) eqn:E; [apply Z.ltb_lt in E; lia|].
  rewrite (Z.min_l 0 (len s)) by lia. rewrite (Z.min_r b (len s)) by lia.
  simpl. rewrite Z.sub_0_r. unfold len. rewrite Nat2Z.id.
  apply firstn_all.
Qed.

(** One unfolding of the loop. *)
Lemma chunk_loop_S fuel text c o start chunks :
  chunk_loop (S fuel) text c o start chunks =
  if start <? len text then
    let end0 := start + c in
    let chunk0 := slice text start end0 in
    let '(chunk, end_) :=
      if end0 <? len text then
        let break_point := Z.max (rfind chunk0 period) (rfind chunk0 newline) in
        if start + c / 2 <? break_point
        then (slice text start (break_point + 1), break_point + 1)
        else (chunk0, end0)
      else (chunk0, end0) in
    if len text <=? end_ - o then Some (chunks ++ [strip chunk])
    else chunk_loop fuel text c o (end_ - o) (chunks ++ [strip chunk])
  else Some chunks.
Proof. reflexivity. Qed.

(** When [overlap < chunk_size] and [overlap <= chunk_size // 2 + 1] the
    window start advances in every iteration, and the loop is left after at
    most [len(text) - start] of them. *)
Lemma chunk_loop_terminates text c o :
  o < c -> o <= c / 2 + 1 ->
  forall n start chunks,
    len text - start <= Z.of_nat n ->
    exists r, chunk_loop (S n) text c o start chunks = Some r.
Proof.
  intros Hoc Ho. induction n as [|n IH]; intros start chunks Hn;
    rewrite chunk_loop_S.
  - destruct (start <? len text) eqn:E; [apply Z.ltb_lt in E; lia | eauto].
  - destruct (start <? len text) eqn:E; [|eauto]. cbv zeta.
    match goal with |- context [let '(_, _) := ?p in _] =>
      destruct p as [chunk end_] eqn:Ep end.
    assert (Hadv : start + 1 <= end_ - o).
    { destruct (start + c <? len text).
      - destruct (start + c / 2 <? _) eqn:B in Ep; inversion Ep; subst.
        + apply Z.ltb_lt in B. lia.
        + lia.
      - inversion Ep; subst. lia. }
    destruct (len text <=? end_ - o); [eauto|].
    apply IH. lia.
Qed.

Lemma default_chunks_returns (text : str) :
  _create_text_chunks (S (List.length text)) text
    default_chunk_size default_overlap = Some (default_chunks text).
Proof.
  unfold default_chunks, _create_text_chunks.
  destruct (chunk_loop_terminates text default_chunk_size default_overlap)
    with (n := List.length text) (start := 0) (chunks := @nil str) as [r Hr].
  - reflexivity.
  - vm_compute. discriminate.
  - unfold len. lia.
  - rewrite Hr. reflexivity.
Qed.

(** On a text shorter than the window no break point is looked for, and
    the loop only appends. *)
Lemma chunk_loop_short text c o :
  len text < c -> o < c ->
  forall n start chunks,
    0 <= start -> len text - start <= Z.of_nat n ->
    exists extra, chunk_loop (S n) text c o start chunks = Some (chunks ++ extra).
Proof.
  intros Hlen Hoc. induction n as [|n IH]; intros start chunks H0 Hn;
    rewrite chunk_loop_S.
  - destruct (start <? len text) eqn:E; [apply Z.ltb_lt in E; lia|].
    exists []. now rewrite app_nil_r.
  - destruct (start <? len text) eqn:E;
      [|exists []; now rewrite app_nil_r]. cbv zeta.
    destruct (start + c <? len text) eqn:E2; [apply Z.ltb_lt in E2; lia|].
    destruct (len text <=? start + c - o); [eauto|].
    destruct (IH (start + c - o) (chunks ++ [strip (slice text start (start + c))]))
      as [extra Hx]; [lia | lia |].
    rewrite Hx, <- app_assoc. eauto.
Qed.

End ChunkerFacts.

Import PyStr Chunker.

(** ** Termination of the chunker *)

Lemma chunk_loop_stuck_equal (fuel : nat) :
  forall chunks, chunk_loop fuel (of_string "abcde") 10 10 0 chunks = None.
Proof.
  induction fuel as [|fuel IH]; intros chunks; [reflexivity|].
  exact (IH (chunks ++ [strip (of_string "abcde")])).
Qed.

(** C3.  The chunker does not terminate on every input: on the text
    ["abcde"] with [chunk_size = 10] and [overlap = 10] the window start is
    0 again after every iteration, so no amount of fuel lets
    [_create_text_chunks] return. *)
Theorem chunker_never_returns_when_overlap_is_chunk_size :
  ~ terminates (of_string "abcde") 10 10.
Proof.
  intros [r [fuel H]]. unfold _create_text_chunks in H.
  rewrite chunk_loop_stuck_equal in H. discriminate.
Qed.

Definition cycling_text : str := of_string "abcdef.hijklmnopqrstuvwxyz".

Lemma chunk_loop_cycle (fuel : nat) :
  forall chunks,
    chunk_loop fuel cycling_text 10 9 0 chunks = None /\
    chunk_loop fuel cycling_text 10 9 (-2) chunks = None /\
    chunk_loop fuel cycling_text 10 9 (-1) chunks = None.
Proof.
  induction fuel as [|fuel IH]; intros chunks; [repeat split; reflexivity|].
  repeat split.
  - exact (proj1 (proj2 (IH (chunks ++ [strip (slice cycling_text 0 7)])))).
  - exact (proj2 (proj2 (IH (chunks ++ [strip (slice cycling_text (-2) 8)])))).
  - exact (proj1 (IH (chunks ++ [strip (slice cycling_text (-1) 9)]))).
Qed.

(** An overlap below the chunk size is not enough either: with
    [chunk_size = 10] and [overlap = 9] a break point at index 6 sends the
    start from 0 to -2, then to -1, then back to 0. *)
Lemma chunker_never_returns_on_a_break_point :
  ~ terminates cycling_text 10 9.
Proof.
  intros [r [fuel H]]. unfold _create_text_chunks in H.
  rewrite (proj1 (chunk_loop_cycle fuel [])) in H. discriminate.
Qed.

(** With the default parameters, the only ones [upload_pdf] uses, the
    chunker returns on every text. *)
Lemma chunker_terminates_with_defaults (text : str) :
  terminates text default_chunk_size default_overlap.
Proof.
  exists (default_chunks text), (S (List.length text)).
  apply default_chunks_returns.
Qed.

(** ** Short texts *)

(** C4, as the code has it.  For every text with a character that is not
    white space, shorter than [chunk_size], and every [overlap] below
    [chunk_size], the chunker returns, and what it returns starts with the
    stripped text: at least one chunk. *)
Theorem chunker_short_text_gives_a_chunk (text : str) (chunk_size overlap : Z) :
  truthy (strip text) = true ->
  len text < chunk_size ->
  overlap < chunk_size ->
  exists r rest, returns text chunk_size overlap r /\ r = strip text :: rest.
Proof.
  intros Hns Hlen Hov.
  assert (Hpos : 0 < len text).
  { destruct text; [discriminate | unfold len; simpl; lia]. }
  assert (Hloop : exists extra,
             chunk_loop (S (S (List.length text))) text chunk_size overlap 0 [] =
             Some (strip text :: extra)).
  { rewrite chunk_loop_S.
    destruct (0 <? len text) eqn:E; [|apply Z.ltb_ge in E; lia]. cbv zeta.
    destruct (0 + chunk_size <? len text) eqn:E2; [apply Z.ltb_lt in E2; lia|].
    rewrite slice_whole by lia. simpl app.
    destruct (len text <=? 0 + chunk_size - overlap); [eauto|].
    destruct (chunk_loop_short text chunk_size overlap Hlen Hov
                (List.length text) (0 + chunk_size - overlap) [strip text])
      as [extra Hx]; [lia | unfold len; lia |].
    rewrite Hx. simpl. eauto. }
  destruct Hloop as [extra Hx].
  exists (strip text :: filter (fun chunk => truthy (strip chunk)) extra).
  eexists. split; [|reflexivity].
  exists (S (S (List.length text))). unfold _create_text_chunks.
  rewrite Hx. simpl. rewrite truthy_strip_strip, Hns. reflexivity.
Qed.

Lemma chunker_short_text_gives_a_chunk_witness :
  exists r rest,
    returns (of_string " ab ") 1000 200 r /\
    r = strip (of_string " ab ") :: rest.
Proof.
  apply (chunker_short_text_gives_a_chunk (of_string " ab ") 1000 200).
  - reflexivity.
  - vm_compute. reflexivity.
  - lia.
Defined.

(** C4 as stated fails: a single blank is a non-empty text shorter than
    the default chunk size, and the chunker returns no chunk for it. *)
Lemma chunker_blank_text_gives_no_chunk :
  of_string " " <> [] /\
  len (of_string " ") < default_chunk_size /\
  returns (of_string " ") default_chunk_size default_overlap [] /\
  forall fuel r,
    _create_text_chunks fuel (of_string " ") default_chunk_size default_overlap
      = Some r -> r = [].
Proof.
  split; [discriminate|]. split; [vm_compute; reflexivity|]. split.
  - exists 1%nat. reflexivity.
  - intros [|fuel] r H; [discriminate|].
    vm_compute in H. now inversion H.
Qed.

(** * Properties of the dictionaries *)

Section DictFacts.
Import PyDict.
Context {K V : Type} (eq_dec : forall x y : K, {x = y} + {x <> y}).
Implicit Types (d : @dict K V) (k : K) (v : V).

Lemma get_set_eq d k v : get eq_dec (set eq_dec d k v) k = Some v.
Proof.
  induction d as [|[k' v'] r IH]; simpl.
  - destruct (eq_dec k k); congruence.
  - destruct (eq_dec k k') as [->|Hn]; simpl.
    + destruct (eq_dec k' k'); congruence.
    + destruct (eq_dec k k'); [contradiction | exact IH].
Qed.

Lemma get_set_neq d k k' v :
  k <> k' -> get eq_dec (set eq_dec d k v) k' = get eq_dec d k'.
Proof.
  intros Hn. induction d as [|[k0 v0] r IH]; simpl.
  - destruct (eq_dec k' k); congruence.
  - destruct (eq_dec k k0) as [->|Hk]; simpl.
    + destruct (eq_dec k' k0); congruence.
    + destruct (eq_dec k' k0); [reflexivity | exact IH].
Qed.

Lemma get_none_iff d k : get eq_dec d k = None <-> ~ In k (keys d).
Proof.
  induction d as [|[k' v'] r IH]; simpl; [tauto|].
  destruct (eq_dec k k') as [->|Hn].
  - split; [discriminate | intros H; exfalso; apply H; now left].
  - rewrite IH. split; intros H; [intros [E|I]; congruence || tauto | tauto].
Qed.

Lemma set_fresh d k v :
  ~ In k (keys d) -> set eq_dec d k v = d ++ [(k, v)].
Proof.
  induction d as [|[k' v'] r IH]; simpl; intros H; [reflexivity|].
  destruct (eq_dec k k') as [->|Hn]; [tauto|].
  rewrite IH by tauto. reflexivity.
Qed.

Lemma get_del_neq d k k' :
  k <> k' -> get eq_dec (del eq_dec d k) k' = get eq_dec d k'.
Proof.
  intros Hn. induction d as [|[k0 v0] r IH]; simpl; [reflexivity|].
  destruct (eq_dec k k0) as [->|Hk]; simpl.
  - destruct (eq_dec k' k0); congruence.
  - destruct (eq_dec k' k0); [reflexivity | exact IH].
Qed.

Lemma keys_del_incl d k k' : In k' (keys (del eq_dec d k)) -> In k' (keys d).
Proof.
  induction d as [|[k0 v0] r IH]; simpl; [tauto|].
  destruct (eq_dec k k0); simpl; tauto.
Qed.

Lemma keys_del_nodup d k : NoDup (keys d) -> NoDup (keys (del eq_dec d k)).
Proof.
  induction d as [|[k0 v0] r IH]; simpl; intros H; [constructor|].
  inversion H as [|? ? Hni Hnd]; subst.
  destruct (eq_dec k k0); simpl; [assumption|].
  constructor; [|auto]. intros Hin. apply Hni. eapply keys_del_incl; eauto.
Qed.

Lemma keys_del_gone d k : NoDup (keys d) -> ~ In k (keys (del eq_dec d k)).
Proof.
  induction d as [|[k0 v0] r IH]; simpl; intros H; [tauto|].
  inversion H as [|? ? Hni Hnd]; subst.
  destruct (eq_dec k k0) as [->|Hn]; simpl; [assumption|].
  intros [E|I]; [congruence | now apply IH].
Qed.

End DictFacts.

(** * Properties of the store *)

Section StoreFacts.
Import PyDict Store.
Context `{C : Collaborators}.

(** The entry that [upload_pdf] records for chunk number [i]. *)
Definition chunk_entry (f : pdf_file) (doc_id : str) (i : nat) (chunk : str) :=
  {| document_id := doc_id;
     chunk_index := Z.of_nat i;
     text_preview := preview chunk;
     chunk_created_at := clock f i |}.

(** No collaborator raises at the chunks numbered [i .. i + n - 1]. *)
Definition no_fault_in (f : pdf_file) (i n : nat) : Prop :=
  match fault f with
  | Some (j, _) => (j < i)%nat \/ (i + n <= j)%nat
  | None => True
  end.

Lemma raises_at_outside f i n st :
  no_fault_in f i (S n) -> raises_at f i st = false.
Proof.
  unfold no_fault_in, raises_at. destruct (fault f) as [[j st']|]; [|reflexivity].
  intros H. replace (Nat.eqb i j) with false; [reflexivity|].
  symmetry. apply Nat.eqb_neq. lia.
Qed.

Lemma raises_at_here f j st :
  fault f = Some (j, st) -> raises_at f j st = true.
Proof.
  unfold raises_at. intros ->. rewrite Nat.eqb_refl. destruct st; reflexivity.
Qed.

Lemma raises_at_other f j st st' :
  fault f = Some (j, st) -> st <> st' -> raises_at f j st' = false.
Proof.
  unfold raises_at. intros -> Hn. rewrite Nat.eqb_refl.
  destruct st, st'; try reflexivity; congruence.
Qed.

(** The ids [n, n+1, ..] handed out to [len] chunks. *)
Definition id_range (n : Z) (len : nat) : list Z :=
  map (fun t => n + Z.of_nat t) (seq 0 len).

Lemma id_range_S n len : id_range n (S len) = n :: id_range (n + 1) len.
Proof.
  unfold id_range. simpl. rewrite Z.add_0_r. f_equal.
  rewrite <- seq_shift, map_map. apply map_ext. intros t. lia.
Qed.

(** What the loop of [upload_pdf] does when nothing raises. *)
Lemma upload_loop_ok f doc_id :
  forall todo i s ids,
    no_fault_in f i (List.length todo) ->
    exists s',
      upload_loop f doc_id i todo s ids =
        (s', ids ++ id_range (next_chunk_id s) (List.length todo), true) /\
      next_chunk_id s' = next_chunk_id s + Z.of_nat (List.length todo) /\
      index s' = index s ++ map encode todo /\
      id_log s' = id_log s ++ id_range (next_chunk_id s) (List.length todo) /\
      documents s' = documents s /\
      documents_dir s' = documents_dir s /\
      (forall t chunk, nth_error todo t = Some chunk ->
         get Z.eq_dec (chunks s') (next_chunk_id s + Z.of_nat t)
           = Some (chunk_entry f doc_id (i + t) chunk) /\
         get Z.eq_dec (embeddings_dir s') (next_chunk_id s + Z.of_nat t)
           = Some (encode chunk) /\
         get Z.eq_dec (chunks_dir s') (next_chunk_id s + Z.of_nat t)
           = Some chunk) /\
      (forall k, k < next_chunk_id s ->
         get Z.eq_dec (chunks s') k = get Z.eq_dec (chunks s) k /\
         get Z.eq_dec (embeddings_dir s') k = get Z.eq_dec (embeddings_dir s) k /\
         get Z.eq_dec (chunks_dir s') k = get Z.eq_dec (chunks_dir s) k).
Proof.
  induction todo as [|chunk rest IH]; intros i s ids Hf.
  - exists s. simpl. rewrite !app_nil_r, Z.add_0_r.
    repeat split; auto. all: destruct t; discriminate.
  - simpl upload_loop.
    rewrite !(raises_at_outside f i (List.length rest)) by exact Hf.
    match goal with |- context [upload_loop f doc_id (S i) rest ?s5 ?ids5] =>
      destruct (IH (S i) s5 ids5) as
        (s' & Hrun & Hnext & Hidx & Hlog & Hdocs & Hdir & Hnew & Hold)
    end.
    { unfold no_fault_in in *. destruct (fault f) as [[j ?]|]; [|exact I].
      simpl in Hf. lia. }
    simpl in Hnext, Hidx, Hlog, Hdocs, Hdir, Hnew, Hold, Hrun.
    exists s'. simpl List.length. rewrite Hrun, id_range_S, <- !app_assoc.
    assert (Hshift : forall t, next_chunk_id s + Z.of_nat (S t)
                               = next_chunk_id s + 1 + Z.of_nat t) by (intros; lia).
    split; [reflexivity|]. split; [lia|].
    split; [rewrite Hidx, <- app_assoc; reflexivity|].
    split; [rewrite Hlog, <- app_assoc; reflexivity|].
    split; [exact Hdocs|]. split; [exact Hdir|]. split.
    + intros [|t] chunk0 Ht.
      * injection Ht as <-. rewrite Z.add_0_r, Nat.add_0_r.
        destruct (Hold (next_chunk_id s)) as (-> & -> & ->); [lia|].
        rewrite !get_set_eq. repeat split.
      * rewrite Hshift, Nat.add_succ_r. exact (Hnew t chunk0 Ht).
    + intros k Hk. destruct (Hold k) as (-> & -> & ->); [lia|].
      rewrite !get_set_neq by lia. repeat split.
Qed.

End StoreFacts.

Section StoreInvariants.
Import PyDict Store.
Context `{C : Collaborators}.

Lemma upload_loop_app f doc_id :
  forall pre rest i s ids,
    upload_loop f doc_id i (pre ++ rest) s ids =
    let '(s1, ids1, ok) := upload_loop f doc_id i pre s ids in
    if ok then upload_loop f doc_id (i + List.length pre) rest s1 ids1
    else (s1, ids1, false).
Proof.
  induction pre as [|chunk pre IH]; intros rest i s ids.
  - simpl. rewrite Nat.add_0_r. reflexivity.
  - simpl. repeat (destruct (raises_at f i _); [reflexivity|]).
    rewrite IH, Nat.add_succ_r. reflexivity.
Qed.

(** What the loop of [upload_pdf] leaves behind when a collaborator raises
    at chunk number [j]: the steps of the chunks before it, and the steps
    of chunk [j] that come before the one that raised. *)
Lemma upload_loop_fails f doc_id j st pre chunk post s ids :
  fault f = Some (j, st) ->
  List.length pre = j ->
  exists s' ids',
    upload_loop f doc_id 0 (pre ++ chunk :: post) s ids = (s', ids', false) /\
    documents s' = documents s /\
    next_chunk_id s' = next_chunk_id s + Z.of_nat j + 1 /\
    index s' = index s ++ map encode pre ++
               match st with AtSaveEmbedding => [encode chunk] | _ => [] end /\
    forall t c, nth_error pre t = Some c ->
      get Z.eq_dec (chunks s') (next_chunk_id s + Z.of_nat t)
        = Some (chunk_entry f doc_id t c).
Proof.
  intros Hf Hj.
  destruct (upload_loop_ok f doc_id pre 0 s ids)
    as (s1 & Hrun & Hnext & Hidx & _ & Hdocs & _ & Hnew & _).
  { unfold no_fault_in. rewrite Hf. right. lia. }
  rewrite upload_loop_app, Hrun. simpl "+"%nat. rewrite Hj.
  assert (Hnew' : forall t c, nth_error pre t = Some c ->
            get Z.eq_dec (chunks s1) (next_chunk_id s + Z.of_nat t)
              = Some (chunk_entry f doc_id t c)).
  { intros t c Ht. exact (proj1 (Hnew t c Ht)). }
  rewrite Hj in Hnext.
  destruct st; simpl upload_loop.
  - rewrite (raises_at_here f j _ Hf).
    eexists _, _. split; [reflexivity|]. simpl.
    rewrite Hidx, app_nil_r. repeat split; auto. lia.
  - rewrite (raises_at_other f j _ AtWriteChunk Hf) by discriminate.
    rewrite (raises_at_here f j _ Hf).
    eexists _, _. split; [reflexivity|]. simpl.
    rewrite Hidx, app_nil_r. repeat split; auto. lia.
  - rewrite (raises_at_other f j _ AtWriteChunk Hf) by discriminate.
    rewrite (raises_at_other f j _ AtEncode Hf) by discriminate.
    rewrite (raises_at_here f j _ Hf).
    eexists _, _. split; [reflexivity|]. simpl.
    rewrite Hidx, app_nil_r. repeat split; auto. lia.
  - rewrite (raises_at_other f j _ AtWriteChunk Hf) by discriminate.
    rewrite (raises_at_other f j _ AtEncode Hf) by discriminate.
    rewrite (raises_at_other f j _ AtIndexAdd Hf) by discriminate.
    rewrite (raises_at_here f j _ Hf).
    eexists _, _. split; [reflexivity|]. simpl.
    rewrite Hidx, <- app_assoc. repeat split; auto. lia.
Qed.

(** *** The counter and the log of assigned ids *)

(** Every id of the log was read below the present counter, and the log
    is strictly increasing. *)
Definition log_ok (s : rag_system) : Prop :=
  StronglySorted Z.lt (id_log s) /\
  Forall (fun k => k < next_chunk_id s) (id_log s).

Lemma sorted_snoc (l : list Z) (x : Z) :
  StronglySorted Z.lt l -> Forall (fun k => k < x) l ->
  StronglySorted Z.lt (l ++ [x]).
Proof.
  induction 1 as [|a l Hs IH Ha]; intros Hx; simpl.
  - repeat constructor.
  - inversion Hx; subst. constructor; [auto|].
    apply Forall_app. split; [assumption | repeat constructor; assumption].
Qed.

Lemma log_ok_draw (s s1 : rag_system) :
  next_chunk_id s1 = next_chunk_id s + 1 ->
  id_log s1 = id_log s ++ [next_chunk_id s] ->
  log_ok s -> log_ok s1.
Proof.
  intros Hn Hl [Hs Hb]. unfold log_ok. rewrite Hn, Hl. split.
  - now apply sorted_snoc.
  - apply Forall_app. split.
    + eapply Forall_impl; [|exact Hb]. simpl. intros; lia.
    + repeat constructor. lia.
Qed.

Lemma upload_loop_counter f doc_id :
  forall todo i s ids,
    let s' := fst (fst (upload_loop f doc_id i todo s ids)) in
    next_chunk_id s <= next_chunk_id s' /\ (log_ok s -> log_ok s').
Proof.
  induction todo as [|chunk rest IH]; intros i s ids; simpl.
  - split; [lia | auto].
  - repeat (destruct (raises_at f i _);
            [simpl; split; [lia | now apply log_ok_draw]|]).
    match goal with |- context [upload_loop f doc_id (S i) rest ?s5 ?ids5] =>
      specialize (IH (S i) s5 ids5); simpl in IH;
      destruct IH as [Hle Hlog] end.
    split; [lia|]. intros H. apply Hlog. revert H. now apply log_ok_draw.
Qed.

Lemma delete_chunks_frame (cids : list Z) :
  forall s,
    let s' := fold_left delete_chunk cids s in
    next_chunk_id s' = next_chunk_id s /\ id_log s' = id_log s /\
    documents s' = documents s /\ index s' = index s.
Proof.
  induction cids as [|cid cids IH]; intros s; simpl; [auto|].
  destruct (IH (delete_chunk s cid)) as (-> & -> & -> & ->). auto.
Qed.

Lemma step_counter (s : rag_system) (o : op) :
  next_chunk_id s <= next_chunk_id (step s o) /\
  (log_ok s -> log_ok (step s o)).
Proof.
  destruct o as [f dn|q k| |d|]; simpl; try (split; [lia | auto]).
  - unfold upload_pdf.
    destruct (negb (path_exists f)); [simpl; split; [lia | auto]|].
    destruct (negb _); [simpl; split; [lia | auto]|].
    destruct (extracted f) as [text|]; [|simpl; split; [lia | auto]].
    destruct (negb _); [simpl; split; [lia | auto]|].
    match goal with |- context [upload_loop f ?d 0 ?cs ?s0 []] =>
      pose proof (upload_loop_counter f d cs 0%nat s0 []) as H;
      destruct (upload_loop f d 0 cs s0 []) as [[s1 ids] ok] end.
    simpl in H. destruct ok; simpl; exact H.
  - unfold delete_document.
    destruct (get str_eq_dec (documents s) d) as [info|];
      [|simpl; split; [lia | auto]].
    simpl. destruct (delete_chunks_frame (chunk_ids info) s) as (Hn & Hl & _).
    unfold log_ok. simpl. rewrite Hn, Hl. split; [lia | auto].
Qed.

Lemma run_counter (ops : list op) :
  forall s, next_chunk_id s <= next_chunk_id (run ops s) /\
            (log_ok s -> log_ok (run ops s)).
Proof.
  induction ops as [|o ops IH]; intros s; simpl; [split; [lia | auto]|].
  destruct (step_counter s o) as [H1 H2].
  destruct (IH (step s o)) as [H3 H4]. split; [lia | auto].
Qed.

End StoreInvariants.

Section StoreConsistency.
Import PyDict Store.
Context `{C : Collaborators}.

(** The keys of the chunk map are distinct, below the counter, and each
    has its saved embedding. *)
Definition meta_ok (s : rag_system) : Prop :=
  NoDup (keys (chunks s)) /\
  (forall k, In k (keys (chunks s)) -> k < next_chunk_id s) /\
  (forall k, In k (keys (chunks s)) ->
     get Z.eq_dec (embeddings_dir s) k <> None).

Definition consistent (s : rag_system) : Prop :=
  List.length (index s) = List.length (chunks s) /\ meta_ok s.

(** The states of the store after completed operations, from an empty
    storage directory. *)
Definition reachable (s : rag_system) : Prop :=
  exists ops, Forall completed ops /\ s = run ops empty_system.

Lemma keys_app {K V : Type} (d d' : @dict K V) :
  keys (d ++ d') = keys d ++ keys d'.
Proof. apply map_app. Qed.

Lemma upload_loop_consistent f doc_id :
  forall todo i s ids,
    no_fault_in f i (List.length todo) ->
    consistent s ->
    consistent (fst (fst (upload_loop f doc_id i todo s ids))).
Proof.
  induction todo as [|chunk rest IH]; intros i s ids Hf Hs; [exact Hs|].
  simpl upload_loop.
  rewrite !(raises_at_outside f i (List.length rest)) by exact Hf.
  apply IH.
  { unfold no_fault_in in *. destruct (fault f) as [[j ?]|]; [|exact I].
    simpl in Hf. lia. }
  destruct Hs as (Hlen & Hnd & Hlt & Hemb).
  assert (Hfresh : ~ In (next_chunk_id s) (keys (chunks s))).
  { intros Hin. apply Hlt in Hin. lia. }
  unfold consistent, meta_ok. simpl.
  rewrite (set_fresh Z.eq_dec (chunks s)) by exact Hfresh.
  rewrite keys_app, !last_length. simpl.
  split; [congruence|]. split; [|split].
  - apply NoDup_app; [assumption | repeat constructor; tauto |].
    intros a Ha [<-|[]]. contradiction.
  - intros k Hk. apply in_app_iff in Hk. destruct Hk as [Hk|[<-|[]]]; [|lia].
    apply Hlt in Hk. lia.
  - intros k Hk. apply in_app_iff in Hk. destruct Hk as [Hk|[<-|[]]].
    + rewrite get_set_neq; [auto|]. apply Hlt in Hk. lia.
    + rewrite get_set_eq. discriminate.
Qed.

Lemma delete_chunk_meta_ok s cid : meta_ok s -> meta_ok (delete_chunk s cid).
Proof.
  intros (Hnd & Hlt & Hemb). unfold meta_ok. simpl. split; [|split].
  - now apply keys_del_nodup.
  - intros k Hk. apply Hlt. eapply keys_del_incl; eauto.
  - intros k Hk. rewrite get_del_neq.
    + apply Hemb. eapply keys_del_incl; eauto.
    + intros <-. revert Hk. now apply keys_del_gone.
Qed.

Lemma delete_chunks_meta_ok cids :
  forall s, meta_ok s -> meta_ok (fold_left delete_chunk cids s).
Proof.
  induction cids as [|cid cids IH]; intros s Hs; simpl; [exact Hs|].
  apply IH. now apply delete_chunk_meta_ok.
Qed.

Lemma rebuild_index_length s :
  (forall k, In k (keys (chunks s)) ->
     get Z.eq_dec (embeddings_dir s) k <> None) ->
  List.length (rebuild_index s) = List.length (chunks s).
Proof.
  unfold rebuild_index, keys.
  induction (chunks s) as [|[k m] r IH]; simpl; intros H; [reflexivity|].
  destruct (get Z.eq_dec (embeddings_dir s) k) eqn:E.
  - simpl. f_equal. apply IH. intros k' Hk'. apply H. now right.
  - exfalso. apply (H k); [now left | exact E].
Qed.

Lemma step_consistent (s : rag_system) (o : op) :
  completed o -> consistent s -> consistent (step s o).
Proof.
  destruct o as [f dn|q k| |d|]; simpl; intros Hc Hs; try exact Hs.
  - unfold upload_pdf.
    destruct (negb (path_exists f)); [exact Hs|].
    destruct (negb _); [exact Hs|].
    destruct (extracted f) as [text|]; [|exact Hs].
    destruct (negb _); [exact Hs|].
    match goal with |- context [upload_loop f ?d 0 ?cs ?s0 []] =>
      pose proof (upload_loop_consistent f d cs 0%nat s0 []) as H;
      destruct (upload_loop f d 0 cs s0 []) as [[s1 ids] ok] end.
    simpl in H.
    assert (Hs1 : consistent s1).
    { apply H; [unfold no_fault_in; now rewrite Hc | exact Hs]. }
    destruct ok; exact Hs1.
  - unfold delete_document.
    destruct (get str_eq_dec (documents s) d) as [info|]; [|exact Hs].
    simpl. destruct Hs as [_ Hm].
    pose proof (delete_chunks_meta_ok (chunk_ids info) s Hm) as Hm1.
    split; [|exact Hm1]. simpl.
    apply (rebuild_index_length
             (with_documents
                (with_documents_dir (fold_left delete_chunk (chunk_ids info) s) _) _)).
    exact (proj2 (proj2 Hm1)).
Qed.

Lemma run_consistent (ops : list op) :
  forall s, Forall completed ops -> consistent s -> consistent (run ops s).
Proof.
  induction ops as [|o ops IH]; intros s Hc Hs; simpl; [exact Hs|].
  inversion Hc; subst. apply IH; [assumption|]. now apply step_consistent.
Qed.

Lemma empty_consistent : consistent empty_system.
Proof.
  repeat split; simpl; try constructor; intros k [].
Qed.

Lemma reachable_consistent s : reachable s -> consistent s.
Proof.
  intros (ops & Hc & ->). apply run_consistent; [exact Hc|].
  apply empty_consistent.
Qed.

End StoreConsistency.

(** * A concrete store

    Stand-ins for the collaborators, to run the tools on concrete inputs:
    integer vectors, the inner product as score, and an exact flat index. *)

Module Flat.
Import PyDict Store.

Definition dot (u v : list Z) : Z :=
  fold_right Z.add 0 (map (fun p => fst p * snd p) (combine u v)).

(** The score of every row against the query, with the row position. *)
Definition scored (rows : list (list Z)) (q : list Z) : list (Z * Z) :=
  combine (map (dot q) rows) (map Z.of_nat (seq 0 (List.length rows))).

(** [h1] is listed before [h2]: a higher score first, and of two equal
    scores the later row first. *)
Definition before (h1 h2 : Z * Z) : bool :=
  (fst h2 <? fst h1) || ((fst h1 =? fst h2) && (snd h2 <? snd h1)).

Fixpoint insert (h : Z * Z) (l : list (Z * Z)) : list (Z * Z) :=
  match l with
  | [] => [h]
  | x :: r => if before h x then h :: l else x :: insert h r
  end.

(** Exact top-[k] search by descending inner product; a [k] that is not
    positive is refused. *)
Definition search (rows : list (list Z)) (q : list Z) (k : Z)
    : option (list (Z * Z)) :=
  if k <=? 0 then None
  else Some (firstn (Z.to_nat k) (fold_right insert [] (scored rows q))).

Definition embed (s : str) : list Z :=
  [len s; Z.of_N (fold_right N.add 0%N s)].

(** The digest only has to be a function of the path string. *)
Definition digest (path : str) : str := path.

#[export] Instance collaborators : Collaborators :=
  {| vec := list Z; score := Z; md5_hexdigest := digest;
     encode := embed; index_search := search |}.

(** A readable PDF at [path] whose extracted text is [text]. *)
Definition pdf (path : string) (text : str) (flt : option (nat * stage))
    : pdf_file :=
  {| path_str := of_string path; path_exists := true;
     suffix_lower := dot_pdf; stem := of_string "doc";
     extracted := Some text; clock := fun _ => of_string "now";
     fault := flt |}.

(** Two documents, then the first one deleted. *)
Definition after_delete_first : rag_system :=
  run [Upload (pdf "a.pdf" (of_string "alpha") None) None;
       Upload (pdf "b.pdf" (of_string "beta") None) None;
       Delete (of_string "a.pdf")] empty_system.

(** The same path uploaded twice. *)
Definition uploaded_twice : rag_system :=
  run [Upload (pdf "a.pdf" (of_string "alpha") None) None;
       Upload (pdf "a.pdf" (of_string "omega") None) None] empty_system.

(** Two documents with the same text. *)
Definition two_equal_texts : rag_system :=
  run [Upload (pdf "a.pdf" (of_string "same") None) None;
       Upload (pdf "b.pdf" (of_string "same") None) None] empty_system.

(** The two documents before the deletion. *)
Definition before_delete : rag_system :=
  run [Upload (pdf "a.pdf" (of_string "alpha") None) None;
       Upload (pdf "b.pdf" (of_string "beta") None) None] empty_system.

(** A text of 1200 letters: two chunks with the default parameters. *)
Definition long_text : str := repeat 97%N 1200.

(** The encoder raises at the second chunk of [long_text]. *)
Definition failing_pdf : pdf_file :=
  pdf "a.pdf" long_text (Some (1%nat, AtEncode)).

End Flat.

(** * The claims about the store *)

Section StoreClaims.
Import PyDict Store.
Context `{C : Collaborators}.

(** [upload_pdf] gets as far as its loop: the file exists, is a PDF, and
    its extracted text is not blank. *)
Definition readable (f : pdf_file) (text : str) : Prop :=
  path_exists f = true /\ suffix_lower f = dot_pdf /\
  extracted f = Some text /\ truthy (strip text) = true.

Lemma upload_pdf_readable s f dn text :
  readable f text ->
  upload_pdf s f dn =
  let doc_id := md5_hexdigest (path_str f) in
  let cs := default_chunks text in
  match upload_loop f doc_id 0 cs
          (with_documents_dir s (set str_eq_dec (documents_dir s) doc_id text))
          [] with
  | (s1, _, false) => (s1, Err ProcessingFailed)
  | (s1, ids, true) =>
    (with_documents s1
       (set str_eq_dec (documents s1) doc_id
          {| name := name_or_stem dn f;
             original_path := path_str f;
             chunk_ids := ids;
             chunk_count := Z.of_nat (List.length cs);
             created_at := clock f (List.length cs) |}),
     Ok {| up_document_id := doc_id;
           up_document_name := name_or_stem dn f;
           chunks_created := Z.of_nat (List.length cs) |})
  end.
Proof.
  intros (He & Hs & Hx & Ht). unfold upload_pdf.
  rewrite He, Hs, Hx, Ht. cbn [negb].
  destruct (str_eq_dec dot_pdf dot_pdf); [reflexivity | contradiction].
Qed.

(** A completed upload of a readable file. *)
Lemma upload_pdf_ok s f dn text :
  readable f text -> fault f = None ->
  let d := md5_hexdigest (path_str f) in
  let cs := default_chunks text in
  exists s' info,
    upload_pdf s f dn =
      (s', Ok {| up_document_id := d;
                 up_document_name := name_or_stem dn f;
                 chunks_created := Z.of_nat (List.length cs) |}) /\
    next_chunk_id s' = next_chunk_id s + Z.of_nat (List.length cs) /\
    index s' = index s ++ map encode cs /\
    documents s' = set str_eq_dec (documents s) d info /\
    chunk_ids info = id_range (next_chunk_id s) (List.length cs) /\
    chunk_count info = Z.of_nat (List.length cs) /\
    (forall t chunk, nth_error cs t = Some chunk ->
       get Z.eq_dec (chunks s') (next_chunk_id s + Z.of_nat t)
         = Some (chunk_entry f d t chunk) /\
       get Z.eq_dec (embeddings_dir s') (next_chunk_id s + Z.of_nat t)
         = Some (encode chunk)) /\
    (forall k, k < next_chunk_id s ->
       get Z.eq_dec (chunks s') k = get Z.eq_dec (chunks s) k /\
       get Z.eq_dec (embeddings_dir s') k = get Z.eq_dec (embeddings_dir s) k).
Proof.
  intros Hr Hf d cs. rewrite (upload_pdf_readable s f dn text Hr). cbv zeta.
  fold d cs.
  destruct (upload_loop_ok f d cs 0
              (with_documents_dir s (set str_eq_dec (documents_dir s) d text)) [])
    as (s1 & Hrun & Hnext & Hidx & _ & Hdocs & _ & Hnew & Hold).
  { unfold no_fault_in. now rewrite Hf. }
  rewrite Hrun. simpl in Hnext, Hidx, Hdocs, Hnew, Hold |- *.
  eexists _, _. split; [reflexivity|]. simpl.
  rewrite Hdocs. repeat split; auto.
  - apply (Hnew t chunk H).
  - apply (Hnew t chunk H).
  - apply (Hold k H).
  - apply (Hold k H).
Qed.

(** ** Failure inside the loop of [upload_pdf] *)

(** C2, as the code has it.  When a collaborator raises at chunk number
    [j] of a readable file, [upload_pdf] answers with the processing error
    and writes no document record: the documents map is as before.  Nothing
    is rolled back: the counter has advanced by [j + 1], the index has
    gained the vectors of the chunks before [j] (and the one of chunk [j]
    when [np.save] raised), and the chunk map holds the entries of the
    chunks before [j]. *)
Theorem failed_upload_keeps_partial_chunks s f dn text j st :
  readable f text ->
  fault f = Some (j, st) ->
  (j < List.length (default_chunks text))%nat ->
  exists s' pre chunk post,
    upload_pdf s f dn = (s', Err ProcessingFailed) /\
    default_chunks text = pre ++ chunk :: post /\
    List.length pre = j /\
    documents s' = documents s /\
    next_chunk_id s' = next_chunk_id s + Z.of_nat j + 1 /\
    index s' = index s ++ map encode pre ++
               match st with AtSaveEmbedding => [encode chunk] | _ => [] end /\
    forall t c, nth_error pre t = Some c ->
      get Z.eq_dec (chunks s') (next_chunk_id s + Z.of_nat t)
        = Some (chunk_entry f (md5_hexdigest (path_str f)) t c).
Proof.
  intros Hr Hf Hj.
  destruct (nth_split (default_chunks text) [] Hj) as (pre & post & Hsplit & Hpre).
  set (chunk := nth j (default_chunks text) []) in Hsplit.
  rewrite (upload_pdf_readable s f dn text Hr). cbv zeta. rewrite Hsplit.
  destruct (upload_loop_fails f (md5_hexdigest (path_str f)) j st pre chunk post
              (with_documents_dir s
                 (set str_eq_dec (documents_dir s)
                    (md5_hexdigest (path_str f)) text)) [] Hf Hpre)
    as (s' & ids' & Hrun & Hdocs & Hnext & Hidx & Hnew).
  rewrite Hrun. exists s', pre, chunk, post.
  simpl in Hdocs, Hnext, Hidx, Hnew. repeat split; auto.
Qed.

(** ** Search *)

(** The store holds no chunk: the index is empty, or the chunk map of a
    reachable state is. *)
Definition holds_no_chunks (s : rag_system) : Prop :=
  ntotal s = 0 \/ (reachable s /\ size (chunks s) = 0).

(** C5.  On a store that holds no chunk [search_documents] answers with
    the no-documents error, whatever the query and [top_k]. *)
Theorem search_on_empty_store_is_an_error s query top_k :
  holds_no_chunks s ->
  search_documents s query top_k = Err NoDocuments.
Proof.
  intros H. assert (H0 : ntotal s = 0).
  { destruct H as [H|[Hr Hz]]; [exact H|].
    destruct (reachable_consistent s Hr) as [Hlen _].
    unfold ntotal, size in *. lia. }
  unfold search_documents. rewrite H0. reflexivity.
Qed.

(** A hit of the index is passed on when its row id is not [-1] and the
    chunk file of that id exists. *)
Definition kept (s : rag_system) (h : score * Z) : bool :=
  negb (snd h =? -1) && mem Z.eq_dec (chunks_dir s) (snd h).

Definition ranked (r : search_hit) : score * Z :=
  (hit_score r, hit_chunk_id r).

(** What is used of [index.search(q, k)]: it refuses a [k] that is not
    positive and gives at most [k] hits. *)
Definition index_contract : Prop :=
  forall rows q k hits,
    index_search rows q k = Some hits ->
    0 < k /\ Z.of_nat (List.length hits) <= k.

Lemma join_hits_filter s hits :
  map ranked (flat_map (join_hit s) hits) = filter (kept s) hits.
Proof.
  induction hits as [|[sc idx] hits IH]; simpl; [reflexivity|].
  unfold kept, mem. simpl.
  destruct (idx =? -1); simpl; [exact IH|].
  destruct (get Z.eq_dec (chunks_dir s) idx); simpl; [|exact IH].
  now rewrite IH.
Qed.

Lemma filter_strongly_sorted {A : Type} (R : A -> A -> Prop) (p : A -> bool) l :
  StronglySorted R l -> StronglySorted R (filter p l).
Proof.
  induction 1 as [|a l Hs IH Ha]; simpl; [constructor|].
  destruct (p a); [|exact IH]. constructor; [exact IH|].
  rewrite Forall_forall in *. intros x Hx. apply Ha.
  apply filter_In in Hx. tauto.
Qed.

(** C6, as the code has it.  A successful search gives at most [top_k]
    results and at most as many as the index has rows (the number of chunk
    entries, in a reachable state); the results are the hits of the index
    whose chunk file exists, in the order of the index.  So they are sorted
    by whatever relation the hits of the index are sorted by; the code
    itself orders nothing and breaks no tie. *)
Theorem search_results_bounded_in_index_order s query top_k results :
  index_contract ->
  search_documents s query top_k = Ok results ->
  Z.of_nat (List.length results) <= top_k /\
  Z.of_nat (List.length results) <= ntotal s /\
  (reachable s -> Z.of_nat (List.length results) <= size (chunks s)) /\
  exists hits,
    index_search (index s) (encode query) (Z.min top_k (ntotal s)) = Some hits /\
    map ranked results = filter (kept s) hits /\
    forall R : score * Z -> score * Z -> Prop,
      StronglySorted R hits -> StronglySorted R (map ranked results).
Proof.
  intros Hc Hs. unfold search_documents in Hs.
  destruct (ntotal s =? 0); [discriminate|].
  destruct (index_search _ _ _) as [hits|] eqn:Ei; [|discriminate].
  injection Hs as <-.
  destruct (Hc _ _ _ _ Ei) as [Hk Hlen].
  assert (Hres : (List.length (flat_map (join_hit s) hits)
                  <= List.length hits)%nat).
  { rewrite <- (length_map ranked), join_hits_filter. apply filter_length_le. }
  assert (Hn : Z.of_nat (List.length (flat_map (join_hit s) hits)) <= ntotal s)
    by lia.
  split; [lia|]. split; [exact Hn|]. split.
  - intros Hr. destruct (reachable_consistent s Hr) as [Hl _].
    unfold ntotal, size in *. lia.
  - exists hits. split; [reflexivity|]. split; [apply join_hits_filter|].
    intros R HR. rewrite join_hits_filter. now apply filter_strongly_sorted.
Qed.

(** ** The counter *)

Lemma sorted_lt_nodup (l : list Z) : StronglySorted Z.lt l -> NoDup l.
Proof.
  induction 1 as [|a l Hs IH Ha]; constructor; [|exact IH].
  intros Hin. rewrite Forall_forall in Ha. specialize (Ha a Hin). lia.
Qed.

(** C8.  No operation lowers [next_chunk_id], whether it succeeds or
    fails, and [delete_document] leaves it as it is; the ids read from the
    counter over the life of a store are strictly increasing, so none is
    assigned twice, and all lie below the present counter. *)
Theorem next_chunk_id_monotone_ids_never_reused :
  (forall s o, next_chunk_id s <= next_chunk_id (step s o)) /\
  (forall s ops, next_chunk_id s <= next_chunk_id (run ops s)) /\
  (forall s doc_id,
     next_chunk_id (fst (delete_document s doc_id)) = next_chunk_id s) /\
  (forall ops,
     let s := run ops empty_system in
     StronglySorted Z.lt (id_log s) /\ NoDup (id_log s) /\
     Forall (fun k => k < next_chunk_id s) (id_log s)).
Proof.
  split; [intros s o; apply step_counter|].
  split; [intros s ops; apply run_counter|]. split.
  - intros s d. unfold delete_document.
    destruct (get str_eq_dec (documents s) d) as [info|]; [|reflexivity].
    simpl. apply (delete_chunks_frame (chunk_ids info) s).
  - intros ops s.
    destruct (proj2 (run_counter ops empty_system)) as [Hs Hb].
    { split; constructor. }
    split; [exact Hs|]. split; [now apply sorted_lt_nodup | exact Hb].
Qed.

(** ** Index size and chunk count *)


(** ** Uploading the same path twice *)

Lemma in_id_range (a k : Z) (n : nat) :
  In k (id_range a n) -> a <= k < a + Z.of_nat n.
Proof.
  unfold id_range. intros H. apply in_map_iff in H.
  destruct H as (t & <- & Ht). apply in_seq in Ht. lia.
Qed.

(** C10.  The document id is the digest of the path string and of nothing
    else, so two completed uploads of the same path, whatever the texts
    extracted, answer with the same id.  After the second one the document
    record of that id lists the chunk ids of the second upload only, while
    every chunk of the first upload still has its entry in the chunk map,
    naming that document id, its saved embedding, and its row in the
    index. *)
Theorem same_path_upload_overwrites_record_keeps_chunks
    s f1 f2 dn1 dn2 text1 text2 :
  path_str f1 = path_str f2 ->
  readable f1 text1 -> fault f1 = None ->
  readable f2 text2 -> fault f2 = None ->
  let d := md5_hexdigest (path_str f1) in
  let cs1 := default_chunks text1 in
  let cs2 := default_chunks text2 in
  let n := next_chunk_id s in
  exists s1 s2 p1 p2 info,
    upload_pdf s f1 dn1 = (s1, Ok p1) /\
    upload_pdf s1 f2 dn2 = (s2, Ok p2) /\
    up_document_id p1 = d /\ up_document_id p2 = d /\
    get str_eq_dec (documents s2) d = Some info /\
    chunk_ids info = id_range (n + Z.of_nat (List.length cs1)) (List.length cs2) /\
    index s2 = index s ++ map encode cs1 ++ map encode cs2 /\
    forall t chunk, nth_error cs1 t = Some chunk ->
      ~ In (n + Z.of_nat t) (chunk_ids info) /\
      get Z.eq_dec (chunks s2) (n + Z.of_nat t)
        = Some (chunk_entry f1 d t chunk) /\
      get Z.eq_dec (embeddings_dir s2) (n + Z.of_nat t) = Some (encode chunk).
Proof.
  intros Hp Hr1 Hf1 Hr2 Hf2 d cs1 cs2 n.
  destruct (upload_pdf_ok s f1 dn1 text1 Hr1 Hf1)
    as (s1 & info1 & Hup1 & Hn1 & Hi1 & _ & _ & _ & Hnew1 & _).
  destruct (upload_pdf_ok s1 f2 dn2 text2 Hr2 Hf2)
    as (s2 & info2 & Hup2 & Hn2 & Hi2 & Hd2 & Hids2 & _ & _ & Hold2).
  fold d cs1 n in Hup1, Hn1, Hi1, Hnew1.
  rewrite <- Hp in Hup2, Hd2. fold d cs2 in Hup2, Hn2, Hi2, Hd2, Hids2.
  exists s1, s2. eexists _, _. exists info2.
  split; [exact Hup1|]. split; [exact Hup2|].
  split; [reflexivity|]. split; [reflexivity|].
  split; [rewrite Hd2; apply get_set_eq|].
  split; [rewrite Hids2, Hn1; reflexivity|].
  split; [rewrite Hi2, Hi1, <- app_assoc; reflexivity|].
  intros t chunk Ht.
  assert (Hlt : (t < List.length cs1)%nat).
  { apply nth_error_Some. rewrite Ht. discriminate. }
  destruct (Hnew1 t chunk Ht) as [Hc He].
  destruct (Hold2 (n + Z.of_nat t)) as [Hc2 He2]; [lia|].
  split; [|split].
  - rewrite Hids2, Hn1. intros Hin. apply in_id_range in Hin. lia.
  - rewrite Hc2. exact Hc.
  - rewrite He2. exact He.
Qed.

End StoreClaims.

(** * The claims on the concrete store *)

Import PyDict Store.
#[local] Existing Instance Flat.collaborators.

Lemma flat_index_contract : @index_contract Flat.collaborators.
Proof.
  intros rows q k hits H. simpl in H. unfold Flat.search in H.
  destruct (k <=? 0) eqn:E; [discriminate|]. apply Z.leb_gt in E.
  injection H as <-. split; [lia|].
  apply Z.le_trans with (Z.of_nat (Z.to_nat k)); [|lia].
  apply inj_le, firstn_le_length.
Qed.

(** ** Rows after a deletion *)

(** C1.  The rebuild of [delete_document] appends the surviving vectors
    to a fresh index in the order of the chunk map.  With two one-chunk
    documents, chunk 1 has its vector in row 1; once the first document is
    deleted chunk 1 is the only live chunk, its vector is in row 0 and row
    1 is gone, and a search for its text finds row 0, looks for the chunk
    file of id 0 and gives no result. *)
Theorem delete_moves_surviving_vector_to_another_row :
  row_holds Flat.before_delete 1 1 /\
  keys (chunks Flat.after_delete_first) = [1] /\
  row_holds Flat.after_delete_first 0 1 /\
  ~ row_holds Flat.after_delete_first 1 1 /\
  search_documents Flat.after_delete_first (of_string "beta") 5 = Ok [].
Proof.
  split; [split; [lia | eexists; split; reflexivity]|].
  split; [reflexivity|].
  split; [split; [lia | eexists; split; reflexivity]|].
  split; [|reflexivity].
  intros (_ & v & _ & Hrow). vm_compute in Hrow. discriminate.
Qed.

(** C7.  After the same path was uploaded twice, the document record
    lists the chunk of the second upload only.  Deleting the document
    succeeds and removes the record, but chunk 0 of the first upload stays
    in the chunk map with that document id, and its vector stays in the
    rebuilt index. *)
Theorem delete_after_second_upload_leaves_first_chunks :
  let d := of_string "a.pdf" in
  let s' := fst (delete_document Flat.uploaded_twice d) in
  snd (delete_document Flat.uploaded_twice d) = Ok (of_string "doc") /\
  get str_eq_dec (documents s') d = None /\
  option_map document_id (get Z.eq_dec (chunks s') 0) = Some d /\
  row_holds s' 0 0 /\
  size (chunks Flat.uploaded_twice) = 2 /\ size (chunks s') = 1.
Proof.
  repeat split; try reflexivity; try lia.
  eexists; split; reflexivity.
Qed.

(** ** A failed upload *)

(** C2 as stated fails: when the encoder raises at the second of two
    chunks, the upload answers with an error, and the counter, the chunk
    map and the index have all changed; the first chunk is visible on its
    own. *)
Lemma failed_upload_is_not_rolled_back :
  let r := upload_pdf empty_system Flat.failing_pdf None in
  snd r = Err ProcessingFailed /\
  next_chunk_id (fst r) = 2 /\ next_chunk_id empty_system = 0 /\
  keys (chunks (fst r)) = [0] /\ keys (chunks empty_system) = [] /\
  List.length (index (fst r)) = 1%nat /\ index empty_system = [] /\
  documents (fst r) = [].
Proof. vm_compute. repeat split; reflexivity. Qed.

Lemma failed_upload_keeps_partial_chunks_witness :
  exists s' pre chunk post,
    upload_pdf empty_system Flat.failing_pdf None = (s', Err ProcessingFailed) /\
    default_chunks Flat.long_text = pre ++ chunk :: post /\
    List.length pre = 1%nat /\
    documents s' = documents empty_system /\
    next_chunk_id s' = next_chunk_id empty_system + Z.of_nat 1 + 1 /\
    index s' = index empty_system ++ map encode pre ++ [] /\
    forall t c, nth_error pre t = Some c ->
      get Z.eq_dec (chunks s') (next_chunk_id empty_system + Z.of_nat t)
        = Some (chunk_entry Flat.failing_pdf
                  (md5_hexdigest (path_str Flat.failing_pdf)) t c).
Proof.
  apply (failed_upload_keeps_partial_chunks empty_system Flat.failing_pdf None
           Flat.long_text 1 AtEncode).
  - repeat split; vm_compute; reflexivity.
  - reflexivity.
  - vm_compute. lia.
Defined.

(** ** Search *)

Lemma search_on_empty_store_is_an_error_witness :
  search_documents (C := Flat.collaborators) empty_system (of_string "q") 5
    = Err NoDocuments.
Proof.
  apply search_on_empty_store_is_an_error. left. reflexivity.
Defined.

(** The order the claim asks for: score not increasing, and of two equal
    scores the lower row id first. *)
Definition claimed_order (a b : Z * Z) : Prop :=
  fst b < fst a \/ (fst a = fst b /\ snd a < snd b).

(** C6 as stated fails on the tie-break: over an exact index that lists
    equal scores with the later row first, the two chunks of equal score
    come back as 1, 0. *)
Lemma search_lists_equal_scores_in_index_order :
  exists results,
    search_documents Flat.two_equal_texts (of_string "same") 2 = Ok results /\
    map ranked results = [(178100, 1); (178100, 0)] /\
    ~ StronglySorted claimed_order (map ranked results).
Proof.
  eexists. split; [vm_compute; reflexivity|]. split; [reflexivity|].
  intros H. simpl in H. inversion H as [|? ? _ Hall]; subst.
  inversion Hall as [|? ? Hord _]; subst.
  unfold claimed_order in Hord. simpl in Hord. lia.
Qed.

Lemma search_results_bounded_in_index_order_witness :
  exists results,
    search_documents Flat.two_equal_texts (of_string "same") 2 = Ok results /\
    Z.of_nat (List.length results) <= 2 /\
    Z.of_nat (List.length results) <= ntotal Flat.two_equal_texts.
Proof.
  eexists. split; [vm_compute; reflexivity|].
  destruct (search_results_bounded_in_index_order Flat.two_equal_texts
              (of_string "same") 2 _ flat_index_contract eq_refl)
    as (H1 & H2 & _).
  split; [exact H1 | exact H2].
Defined.

(** ** Index size *)


(** ** The same path twice *)

Lemma same_path_upload_overwrites_record_keeps_chunks_witness :
  exists s1 s2 p1 p2 info,
    upload_pdf empty_system (Flat.pdf "a.pdf" (of_string "alpha") None) None
      = (s1, Ok p1) /\
    upload_pdf s1 (Flat.pdf "a.pdf" (of_string "omega") None) None
      = (s2, Ok p2) /\
    up_document_id p1 = of_string "a.pdf" /\
    up_document_id p2 = of_string "a.pdf" /\
    get str_eq_dec (documents s2) (of_string "a.pdf") = Some info /\
    chunk_ids info = [1] /\
    index s2 = [Flat.embed (of_string "alpha"); Flat.embed (of_string "omega")] /\
    forall t chunk,
      nth_error (default_chunks (of_string "alpha")) t = Some chunk ->
      ~ In (0 + Z.of_nat t) (chunk_ids info) /\
      get Z.eq_dec (chunks s2) (0 + Z.of_nat t)
        = Some (chunk_entry (Flat.pdf "a.pdf" (of_string "alpha") None)
                  (of_string "a.pdf") t chunk) /\
      get Z.eq_dec (embeddings_dir s2) (0 + Z.of_nat t) = Some (encode chunk).
Proof.
  destruct (same_path_upload_overwrites_record_keeps_chunks empty_system
              (Flat.pdf "a.pdf" (of_string "alpha") None)
              (Flat.pdf "a.pdf" (of_string "omega") None)
              None None (of_string "alpha") (of_string "omega")
              eq_refl
              (conj eq_refl (conj eq_refl (conj eq_refl eq_refl))) eq_refl
              (conj eq_refl (conj eq_refl (conj eq_refl eq_refl))) eq_refl)
    as (s1 & s2 & p1 & p2 & info & H1 & H2 & H3 & H4 & H5 & H6 & H7 & H8).
  exists s1, s2, p1, p2, info.
  split; [exact H1|]. split; [exact H2|]. split; [exact H3|].
  split; [exact H4|]. split; [exact H5|]. split; [exact H6|].
  split; [exact H7 | exact H8].
Defined.

(** * Further properties of the chunker *)

Section ChunkerMore.

(** More fuel does not change what the loop returns. *)
Lemma chunk_loop_more_fuel text c o :
  forall fuel start chunks r,
    chunk_loop fuel text c o start chunks = Some r ->
    chunk_loop (S fuel) text c o start chunks = Some r.
Proof.
  induction fuel as [|fuel IH]; intros start chunks r H; [discriminate|].
  rewrite chunk_loop_S in H. rewrite chunk_loop_S.
  destruct (start <? len text); [|exact H]. cbv zeta in H |- *.
  match goal with |- context [let '(_, _) := ?p in _] =>
    destruct p as [chunk end_] end.
  destruct (len text <=? end_ - o); [exact H|]. now apply IH.
Qed.

Lemma chunk_loop_fuel_le text c o start chunks r :
  forall fuel fuel',
    (fuel <= fuel')%nat ->
    chunk_loop fuel text c o start chunks = Some r ->
    chunk_loop fuel' text c o start chunks = Some r.
Proof.
  intros fuel fuel' Hle H. induction Hle; [exact H|].
  now apply chunk_loop_more_fuel.
Qed.

(** The chunker has one result at most. *)
Lemma returns_functional text c o r r' :
  returns text c o r -> returns text c o r' -> r = r'.
Proof.
  intros [f1 H1] [f2 H2]. unfold _create_text_chunks in *.
  destruct (chunk_loop f1 text c o 0 []) as [l1|] eqn:E1; [|discriminate].
  destruct (chunk_loop f2 text c o 0 []) as [l2|] eqn:E2; [|discriminate].
  apply (chunk_loop_fuel_le _ _ _ _ _ _ f1 (Nat.max f1 f2)) in E1; [|lia].
  apply (chunk_loop_fuel_le _ _ _ _ _ _ f2 (Nat.max f1 f2)) in E2; [|lia].
  simpl in H1, H2. congruence.
Qed.

(** X1.  The chunker terminates on every text whenever the overlap is
    below the chunk size and at most [chunk_size // 2 + 1]: the window
    start then advances by at least one in every iteration. *)
Theorem chunker_terminates_for_small_overlap text chunk_size overlap :
  overlap < chunk_size ->
  overlap <= chunk_size / 2 + 1 ->
  terminates text chunk_size overlap.
Proof.
  intros H1 H2.
  destruct (chunk_loop_terminates text chunk_size overlap H1 H2
              (List.length text) 0 []) as [r Hr]; [unfold len; lia|].
  eexists. exists (S (List.length text)). unfold _create_text_chunks.
  rewrite Hr. reflexivity.
Qed.

Lemma chunker_terminates_for_small_overlap_witness :
  terminates (of_string "abcdef.hijklmnopqrstuvwxyz") 10 6.
Proof.
  apply chunker_terminates_for_small_overlap; [lia | vm_compute; discriminate].
Defined.

(** *** Blank texts *)

Lemma nonspace_firstn n (l : str) :
  existsb nonspace l = false -> existsb nonspace (firstn n l) = false.
Proof.
  revert n. induction l as [|x l IH]; intros [|n] H; simpl in *; auto.
  apply orb_false_iff in H. destruct H as [-> H]. simpl. auto.
Qed.

Lemma nonspace_skipn n (l : str) :
  existsb nonspace l = false -> existsb nonspace (skipn n l) = false.
Proof.
  revert n. induction l as [|x l IH]; intros [|n] H; simpl in *; auto.
  apply orb_false_iff in H. destruct H as [_ H]. auto.
Qed.

Lemma nonspace_slice (s : str) a b :
  existsb nonspace s = false -> existsb nonspace (slice s a b) = false.
Proof.
  intros H. unfold slice. now apply nonspace_firstn, nonspace_skipn.
Qed.

Definition blank (s : str) : Prop := truthy (strip s) = false.

Lemma chunk_loop_blank text c o :
  existsb nonspace text = false ->
  forall fuel start chunks r,
    Forall blank chunks ->
    chunk_loop fuel text c o start chunks = Some r ->
    Forall blank r.
Proof.
  intros Hb. induction fuel as [|fuel IH]; intros start chunks r Hc H;
    [discriminate|].
  rewrite chunk_loop_S in H.
  destruct (start <? len text); [|now injection H as <-]. cbv zeta in H.
  match type of H with context [let '(_, _) := ?p in _] =>
    destruct p as [chunk end_] eqn:Ep end.
  assert (Hchunk : blank (strip chunk)).
  { unfold blank. rewrite truthy_strip_strip, truthy_strip.
    destruct (start + c <? len text);
      [destruct (start + c / 2 <? _) in Ep|];
      injection Ep as <- _; now apply nonspace_slice. }
  assert (Hc' : Forall blank (chunks ++ [strip chunk])).
  { apply Forall_app. split; [exact Hc | now constructor]. }
  destruct (len text <=? end_ - o); [now injection H as <-|].
  eapply IH; eauto.
Qed.

(** X2.  A text without any non-whitespace character (the empty text
    included) gives no chunk, whatever the parameters: the chunker returns
    the empty list on it, if it returns. *)
Theorem chunker_blank_text_gives_nothing text chunk_size overlap :
  existsb nonspace text = false ->
  forall fuel,
    _create_text_chunks fuel text chunk_size overlap = Some [] \/
    _create_text_chunks fuel text chunk_size overlap = None.
Proof.
  intros Hb fuel. unfold _create_text_chunks.
  destruct (chunk_loop fuel text chunk_size overlap 0 []) as [l|] eqn:E;
    [left | now right].
  pose proof (chunk_loop_blank text chunk_size overlap Hb fuel 0 [] l
                (Forall_nil _) E) as Hl.
  clear E. simpl. f_equal.
  induction Hl as [|x l Hx _ IH]; simpl; [reflexivity|].
  unfold blank in Hx. rewrite Hx. exact IH.
Qed.

Lemma chunker_blank_text_gives_nothing_witness :
  _create_text_chunks 5 (of_string "  ") 3 1 = Some [] \/
  _create_text_chunks 5 (of_string "  ") 3 1 = None.
Proof.
  apply (chunker_blank_text_gives_nothing (of_string "  ") 3 1).
  reflexivity.
Defined.

(** *** A text inside one window *)

(** X3.  A text with a non-whitespace character, no longer than
    [chunk_size] and no longer than [chunk_size - overlap], gives exactly
    one chunk: the stripped text. *)
Theorem chunker_one_window_one_chunk text chunk_size overlap :
  truthy (strip text) = true ->
  len text <= chunk_size ->
  len text <= chunk_size - overlap ->
  returns text chunk_size overlap [strip text] /\
  forall r, returns text chunk_size overlap r -> r = [strip text].
Proof.
  intros Hns Hc Ho.
  assert (Hpos : 0 < len text).
  { destruct text; [discriminate | unfold len; simpl; lia]. }
  assert (Hret : returns text chunk_size overlap [strip text]).
  { exists 1%nat. unfold _create_text_chunks. rewrite chunk_loop_S.
    destruct (0 <? len text) eqn:E; [|apply Z.ltb_ge in E; lia]. cbv zeta.
    destruct (0 + chunk_size <? len text) eqn:E2; [apply Z.ltb_lt in E2; lia|].
    rewrite slice_whole by lia.
    destruct (len text <=? 0 + chunk_size - overlap) eqn:E3;
      [|apply Z.leb_gt in E3; lia].
    simpl. rewrite truthy_strip_strip, Hns. reflexivity. }
  split; [exact Hret|]. intros r Hr. exact (returns_functional _ _ _ _ _ Hr Hret).
Qed.

Lemma chunker_one_window_one_chunk_witness :
  returns (of_string " one page ") 1000 200 [of_string "one page"] /\
  forall r, returns (of_string " one page ") 1000 200 r ->
            r = [of_string "one page"].
Proof.
  apply (chunker_one_window_one_chunk (of_string " one page ") 1000 200).
  - reflexivity.
  - vm_compute. discriminate.
  - vm_compute. discriminate.
Defined.

End ChunkerMore.

(** *** The shape of the chunks *)

Section ChunkShape.

Definition head_ok (l : str) : bool :=
  match l with [] => true | x :: _ => nonspace x end.

Lemma lstrip_head_ok (s : str) : head_ok (lstrip s) = true.
Proof.
  induction s as [|x s IH]; simpl; [reflexivity|].
  destruct (isspace x) eqn:E; [exact IH|]. simpl. unfold nonspace. now rewrite E.
Qed.

Lemma lstrip_fixed (l : str) : head_ok l = true -> lstrip l = l.
Proof.
  destruct l as [|x l]; simpl; [reflexivity|]. unfold nonspace.
  destruct (isspace x); [discriminate | reflexivity].
Qed.

Lemma lstrip_suffix (s : str) : exists pre, s = pre ++ lstrip s.
Proof.
  induction s as [|x s [pre IH]]; simpl; [now exists []|].
  destruct (isspace x); [|now exists []].
  exists (x :: pre). simpl. now f_equal.
Qed.

Lemma head_ok_app (l l' : str) : head_ok (l ++ l') = true -> head_ok l = true.
Proof. destruct l; simpl; auto. Qed.

Lemma rstrip_head_ok (a : str) : head_ok a = true -> head_ok (rstrip a) = true.
Proof.
  intros H. unfold rstrip. destruct (lstrip_suffix (rev a)) as [pre Hpre].
  apply (f_equal (@rev N)) in Hpre. rewrite rev_involutive, rev_app_distr in Hpre.
  rewrite Hpre in H. now apply head_ok_app in H.
Qed.

Lemma strip_fixed (x : str) :
  head_ok x = true -> head_ok (rev x) = true -> strip x = x.
Proof.
  intros H1 H2. unfold strip, rstrip.
  rewrite (lstrip_fixed x H1), (lstrip_fixed (rev x) H2). apply rev_involutive.
Qed.

(** Stripping twice is stripping once. *)
Lemma strip_strip (s : str) : strip (strip s) = strip s.
Proof.
  apply strip_fixed.
  - unfold strip. apply rstrip_head_ok, lstrip_head_ok.
  - unfold strip, rstrip. rewrite rev_involutive. apply lstrip_head_ok.
Qed.

Lemma length_lstrip (s : str) : (List.length (lstrip s) <= List.length s)%nat.
Proof.
  induction s as [|x s IH]; simpl; [lia|]. destruct (isspace x); simpl; lia.
Qed.

Lemma len_strip (s : str) : len (strip s) <= len s.
Proof.
  unfold len, strip, rstrip. rewrite length_rev.
  pose proof (length_lstrip (rev (lstrip s))) as H1. rewrite length_rev in H1.
  pose proof (length_lstrip s). lia.
Qed.

Lemma len_slice_bound (s : str) a b :
  len (slice s a b) <= Z.max 0 (clamp (len s) b - clamp (len s) a).
Proof.
  unfold slice, len at 1.
  match goal with |- Z.of_nat (List.length (firstn ?k ?l)) <= _ =>
    pose proof (firstn_le_length k l) end.
  lia.
Qed.

Lemma len_slice_window (s : str) a c :
  0 <= c -> len (slice s a (a + c)) <= c.
Proof.
  intros Hc. pose proof (len_slice_bound s a (a + c)) as H.
  assert (0 <= len s) by (unfold len; lia).
  unfold clamp in H.
  destruct (a + c <? 0) eqn:E1; destruct (a <? 0) eqn:E2;
    try apply Z.ltb_lt in E1; try apply Z.ltb_ge in E1;
    try apply Z.ltb_lt in E2; try apply Z.ltb_ge in E2; lia.
Qed.

Lemma len_slice_upto (s : str) a e :
  0 <= e -> len (slice s a e) <= e.
Proof.
  intros He. pose proof (len_slice_bound s a e) as H.
  assert (0 <= len s) by (unfold len; lia).
  unfold clamp in H.
  destruct (e <? 0) eqn:E1; destruct (a <? 0) eqn:E2;
    try apply Z.ltb_lt in E1; try apply Z.ltb_ge in E1;
    try apply Z.ltb_lt in E2; try apply Z.ltb_ge in E2; lia.
Qed.

Lemma rfind_from_bound (s : str) (c : N) :
  forall i acc,
    rfind_from s c i acc = acc \/
    i <= rfind_from s c i acc < i + len s.
Proof.
  induction s as [|x s IH]; intros i acc; simpl; [now left|].
  assert (Hl : len (x :: s) = len s + 1) by (unfold len; simpl; lia).
  assert (H0 : 0 <= len s) by (unfold len; lia).
  destruct (IH (i + 1) (if (x =? c)%N then i else acc)) as [H|H].
  - rewrite H. destruct (x =? c)%N; [right; lia | now left].
  - right. lia.
Qed.

(** [rfind] answers [-1] or an index of the string. *)
Lemma rfind_bound (s : str) (c : N) : -1 <= rfind s c < len s.
Proof.
  unfold rfind. assert (H0 : 0 <= len s) by (unfold len; lia).
  destruct (rfind_from_bound s c 0 (-1)) as [H|H]; lia.
Qed.

(** A chunk of the loop is the strip of a piece of at most [c]
    characters. *)
Definition cut_from (c : Z) (x : str) : Prop :=
  exists y, x = strip y /\ len y <= c.

Lemma chunk_loop_cut text c o :
  0 <= c ->
  forall fuel start chunks r,
    Forall (cut_from c) chunks ->
    chunk_loop fuel text c o start chunks = Some r ->
    Forall (cut_from c) r.
Proof.
  intros Hc. induction fuel as [|fuel IH]; intros start chunks r Hall H;
    [discriminate|].
  rewrite chunk_loop_S in H.
  destruct (start <? len text); [|now injection H as <-]. cbv zeta in H.
  match type of H with context [let '(_, _) := ?p in _] =>
    destruct p as [chunk end_] eqn:Ep end.
  assert (Hchunk : len chunk <= c).
  { pose proof (len_slice_window text start c Hc) as Hw.
    destruct (start + c <? len text); [|now injection Ep as <- _].
    destruct (start + c / 2 <? _) in Ep; [|now injection Ep as <- _].
    injection Ep as <- _.
    pose proof (rfind_bound (slice text start (start + c)) period).
    pose proof (rfind_bound (slice text start (start + c)) newline).
    match goal with |- len (slice _ _ ?e) <= _ =>
      pose proof (len_slice_upto text start e) end.
    lia. }
  assert (Hall' : Forall (cut_from c) (chunks ++ [strip chunk])).
  { apply Forall_app. split; [exact Hall|]. constructor; [|constructor].
    now exists chunk. }
  destruct (len text <=? end_ - o); [now injection H as <-|].
  eapply IH; eauto.
Qed.

(** X4.  Every chunk the chunker returns is non-empty, has no white
    space at either end, and has at most [chunk_size] characters. *)
Theorem chunker_chunks_are_trimmed_and_bounded text chunk_size overlap r :
  0 <= chunk_size ->
  returns text chunk_size overlap r ->
  Forall (fun chunk =>
            chunk <> [] /\ strip chunk = chunk /\ len chunk <= chunk_size) r.
Proof.
  intros Hc [fuel H]. unfold _create_text_chunks in H.
  destruct (chunk_loop fuel text chunk_size overlap 0 []) as [l|] eqn:E;
    [|discriminate].
  injection H as <-.
  pose proof (chunk_loop_cut text chunk_size overlap Hc fuel 0 [] l
                (Forall_nil _) E) as Hl.
  rewrite Forall_forall in *. intros chunk Hin.
  apply filter_In in Hin. destruct Hin as [Hin Ht].
  destruct (Hl chunk Hin) as (y & -> & Hy).
  rewrite strip_strip in Ht. split; [|split].
  - intros E0. rewrite E0 in Ht. discriminate.
  - apply strip_strip.
  - pose proof (len_strip y). lia.
Qed.

Lemma chunker_chunks_are_trimmed_and_bounded_witness :
  Forall (fun chunk => chunk <> [] /\ strip chunk = chunk /\ len chunk <= 10)
    [of_string "abcdef."; of_string "f.hijklmn."; of_string "n. opqrstu";
     of_string "tuvwxyz"].
Proof.
  apply (chunker_chunks_are_trimmed_and_bounded
           (of_string "abcdef.hijklmn. opqrstuvwxyz") 10 2).
  - lia.
  - exists 10%nat. reflexivity.
Defined.

End ChunkShape.

(** * Further properties of the dictionaries *)

Section DictMore.
Context {K V : Type} (eq_dec : forall x y : K, {x = y} + {x <> y}).
Implicit Types (d : @dict K V) (k : K) (v : V).

Lemma keys_set_in d k v k' :
  In k' (keys (set eq_dec d k v)) <-> k' = k \/ In k' (keys d).
Proof.
  induction d as [|[k0 v0] r IH]; simpl.
  - split; [intros [E|[]]; auto | intros [E|[]]; auto].
  - destruct (eq_dec k k0) as [->|Hn]; simpl.
    + intuition (subst; auto).
    + rewrite IH. intuition (subst; auto).
Qed.

Lemma keys_set_nodup d k v : NoDup (keys d) -> NoDup (keys (set eq_dec d k v)).
Proof.
  induction d as [|[k0 v0] r IH]; simpl; intros H.
  - repeat constructor. tauto.
  - inversion H as [|? ? Hni Hnd]; subst.
    destruct (eq_dec k k0) as [->|Hn]; simpl; [now constructor|].
    constructor; [|auto]. rewrite keys_set_in. intros [E|I]; congruence.
Qed.

Lemma get_del_eq d k : NoDup (keys d) -> get eq_dec (del eq_dec d k) k = None.
Proof.
  intros H. apply get_none_iff. now apply keys_del_gone.
Qed.

Lemma keys_del_other d k k' :
  In k' (keys d) -> k' <> k -> In k' (keys (del eq_dec d k)).
Proof.
  induction d as [|[k0 v0] r IH]; simpl; [tauto|].
  intros [E|I] Hn.
  - subst k0. destruct (eq_dec k k'); [congruence | now left].
  - destruct (eq_dec k k0); [exact I | right; auto].
Qed.

Lemma length_del_in d k :
  In k (keys d) -> S (List.length (del eq_dec d k)) = List.length d.
Proof.
  induction d as [|[k0 v0] r IH]; simpl; [tauto|].
  intros H. destruct (eq_dec k k0) as [->|Hn]; [reflexivity|].
  simpl. f_equal. apply IH. destruct H; [congruence | assumption].
Qed.

Lemma get_some_in d k v : get eq_dec d k = Some v -> In k (keys d).
Proof.
  intros H. destruct (in_dec eq_dec k (keys d)) as [I|N]; [exact I|].
  apply (get_none_iff eq_dec) in N. congruence.
Qed.

Lemma in_keys_get d k : In k (keys d) -> exists v, get eq_dec d k = Some v.
Proof.
  intros H. destruct (get eq_dec d k) as [v|] eqn:E; [eauto|].
  apply (get_none_iff eq_dec) in E. contradiction.
Qed.

End DictMore.

(** * Further properties of [upload_pdf] *)

Section UploadMore.
Context `{C : Collaborators}.

(** The loop of [upload_pdf] never touches the documents map or the
    documents directory, whether it fails or not. *)
Lemma upload_loop_documents f doc_id :
  forall todo i s ids,
    let s' := fst (fst (upload_loop f doc_id i todo s ids)) in
    documents s' = documents s /\ documents_dir s' = documents_dir s.
Proof.
  induction todo as [|chunk rest IH]; intros i s ids; simpl; [auto|].
  repeat (destruct (raises_at f i _); [simpl; auto|]).
  match goal with |- context [upload_loop f doc_id (S i) rest ?s5 ?ids5] =>
    destruct (IH (S i) s5 ids5) as [H1 H2] end.
  simpl in H1, H2. auto.
Qed.

Lemma no_fault_in_dec f n :
  no_fault_in f 0 n \/
  exists j st, fault f = Some (j, st) /\ (j < n)%nat.
Proof.
  unfold no_fault_in. destruct (fault f) as [[j st]|]; [|now left].
  destruct (Nat.lt_ge_cases j n); [right; eauto | left; right; lia].
Qed.

Lemma upload_pdf_ok_only_if s f dn p :
  snd (upload_pdf s f dn) = Ok p ->
  exists text, readable f text /\
               no_fault_in f 0 (List.length (default_chunks text)).
Proof.
  intros Hp. unfold upload_pdf in Hp.
  destruct (path_exists f) eqn:He; [|discriminate]. cbn [negb] in Hp.
  destruct (str_eq_dec (suffix_lower f) dot_pdf) as [Hs|]; [|discriminate].
  cbn [negb] in Hp.
  destruct (extracted f) as [text|] eqn:Hx; [|discriminate].
  destruct (truthy (strip text)) eqn:Ht; [|discriminate]. cbn [negb] in Hp.
  exists text. split; [repeat split; auto|].
  destruct (no_fault_in_dec f (List.length (default_chunks text)))
    as [Hn|(j & st & Hf & Hj)]; [exact Hn|].
  exfalso.
  destruct (nth_split (default_chunks text) [] Hj) as (pre & post & Hsplit & Hpre).
  rewrite Hsplit in Hp.
  match type of Hp with context [upload_loop f ?d 0 _ ?s0 []] =>
    destruct (upload_loop_fails f d j st pre (nth j (default_chunks text) [])
                post s0 [] Hf Hpre) as (s' & ids' & Hrun & _) end.
  rewrite Hrun in Hp. discriminate.
Qed.


(** X6.  An upload that answers file not found, not a PDF or no text,
    or whose extraction raised, leaves the store exactly as it was. *)
Theorem rejected_upload_leaves_store s f dn e :
  snd (upload_pdf s f dn) = Err e ->
  e <> ProcessingFailed \/ extracted f = None ->
  fst (upload_pdf s f dn) = s.
Proof.
  unfold upload_pdf.
  destruct (negb (path_exists f)); [reflexivity|].
  destruct (negb _); [reflexivity|].
  destruct (extracted f) as [text|]; [|reflexivity].
  destruct (negb _); [reflexivity|].
  destruct (upload_loop _ _ _ _ _ _) as [[s1 ids] [|]]; simpl.
  - discriminate.
  - intros He [Hn|Hn]; [|discriminate]. injection He as <-. now contradiction Hn.
Qed.

(** A successful upload, in terms of its answer. *)
Lemma upload_pdf_ok_gen s f dn text :
  readable f text ->
  no_fault_in f 0 (List.length (default_chunks text)) ->
  let d := md5_hexdigest (path_str f) in
  let cs := default_chunks text in
  exists s' info,
    upload_pdf s f dn =
      (s', Ok {| up_document_id := d;
                 up_document_name := name_or_stem dn f;
                 chunks_created := Z.of_nat (List.length cs) |}) /\
    next_chunk_id s' = next_chunk_id s + Z.of_nat (List.length cs) /\
    index s' = index s ++ map encode cs /\
    documents s' = set str_eq_dec (documents s) d info /\
    documents_dir s' = set str_eq_dec (documents_dir s) d text /\
    chunk_ids info = id_range (next_chunk_id s) (List.length cs) /\
    chunk_count info = Z.of_nat (List.length cs) /\
    name info = name_or_stem dn f /\
    (forall t chunk, nth_error cs t = Some chunk ->
       get Z.eq_dec (chunks s') (next_chunk_id s + Z.of_nat t)
         = Some (chunk_entry f d t chunk) /\
       get Z.eq_dec (embeddings_dir s') (next_chunk_id s + Z.of_nat t)
         = Some (encode chunk) /\
       get Z.eq_dec (chunks_dir s') (next_chunk_id s + Z.of_nat t)
         = Some chunk) /\
    (forall k, k < next_chunk_id s ->
       get Z.eq_dec (chunks s') k = get Z.eq_dec (chunks s) k /\
       get Z.eq_dec (embeddings_dir s') k = get Z.eq_dec (embeddings_dir s) k /\
       get Z.eq_dec (chunks_dir s') k = get Z.eq_dec (chunks_dir s) k).
Proof.
  intros Hr Hf d cs. rewrite (upload_pdf_readable s f dn text Hr). cbv zeta.
  fold d cs.
  destruct (upload_loop_ok f d cs 0
              (with_documents_dir s (set str_eq_dec (documents_dir s) d text)) []
              Hf)
    as (s1 & Hrun & Hnext & Hidx & _ & Hdocs & Hdir & Hnew & Hold).
  rewrite Hrun. simpl in Hnext, Hidx, Hdocs, Hdir, Hnew, Hold |- *.
  eexists _, _. split; [reflexivity|]. simpl.
  rewrite Hdocs. repeat split; auto; try apply (Hnew t chunk H);
    try apply (Hold k H).
Qed.

(** X7.  After a successful upload the answer, the document record, the
    index and the counter agree: the record of the returned id lists
    [chunks_created] consecutive chunk ids starting at the old counter, its
    [chunk_count] is [chunks_created], and the index and the counter have
    both grown by [chunks_created]. *)
Theorem successful_upload_accounts_for_its_chunks s f dn p :
  snd (upload_pdf s f dn) = Ok p ->
  let s' := fst (upload_pdf s f dn) in
  up_document_id p = md5_hexdigest (path_str f) /\
  0 <= chunks_created p /\
  ntotal s' = ntotal s + chunks_created p /\
  next_chunk_id s' = next_chunk_id s + chunks_created p /\
  exists info,
    get str_eq_dec (documents s') (up_document_id p) = Some info /\
    name info = up_document_name p /\
    chunk_count info = chunks_created p /\
    chunk_ids info =
      id_range (next_chunk_id s) (Z.to_nat (chunks_created p)).
Proof.
  intros Hp s'.
  destruct (upload_pdf_ok_only_if s f dn p Hp) as (text & Hr & Hn).
  destruct (upload_pdf_ok_gen s f dn text Hr Hn)
    as (s1 & info & Hup & Hnext & Hidx & Hdocs & _ & Hids & Hcnt & Hname & _).
  unfold s'. rewrite Hup in Hp |- *. simpl in Hp |- *.
  injection Hp as <-. simpl.
  split; [reflexivity|]. split; [lia|]. split; [|split; [exact Hnext|]].
  - unfold ntotal. rewrite Hidx, length_app, length_map. lia.
  - exists info. rewrite Hdocs, get_set_eq, Nat2Z.id. auto.
Qed.

End UploadMore.

(** * The documents map, the documents directory and the resources *)

From Stdlib Require Import DecimalString.

Module Resources.
Section WithCollaborators.
Context `{C : Collaborators}.

(** [str(n)] for an integer. *)
Definition str_of_int (n : Z) : str :=
  of_string (NilZero.string_of_int (Z.to_int n)).

(** ["=" * 50]. *)
Definition rule : str := repeat 61%N 50.

(** The header that [get_document_content] puts before the text. *)
Definition header (doc_info : doc_info) : str :=
  of_string "Document: " ++ name doc_info ++ [newline] ++
  of_string "Created: " ++ created_at doc_info ++ [newline] ++
  of_string "Chunks: " ++ str_of_int (chunk_count doc_info) ++ [newline] ++
  rule ++ [newline; newline].

(** [get_document_content(document_id)], the resource
    [rag://document/{document_id}]. *)
Definition get_document_content (s : rag_system) (document_id : str) : str :=
  match get str_eq_dec (documents s) document_id with
  | None => of_string "Document not found: " ++ document_id
  | Some doc_info =>
    match get str_eq_dec (documents_dir s) document_id with
    | None => of_string "Document file not found: " ++ document_id
    | Some content => header doc_info ++ content
    end
  end.

End WithCollaborators.
End Resources.

Section DocumentsMore.
Import Resources.
Context `{C : Collaborators}.

(** The states of the store after any operations, failed ones included,
    from an empty storage directory. *)
Definition reached (s : rag_system) : Prop :=
  exists ops, s = run ops (@empty_system C).

(** The document ids are distinct and each document has its text file. *)
Definition docs_ok (s : rag_system) : Prop :=
  NoDup (keys (documents s)) /\
  forall d, In d (keys (documents s)) -> In d (keys (documents_dir s)).

Lemma delete_chunks_documents_dir (cids : list Z) :
  forall s, documents_dir (fold_left delete_chunk cids s) = documents_dir s.
Proof.
  induction cids as [|cid cids IH]; intros s; simpl; [reflexivity|].
  now rewrite IH.
Qed.

Lemma step_docs_ok (s : rag_system) (o : op) : docs_ok s -> docs_ok (step s o).
Proof.
  intros [Hnd Hin]. destruct o as [f dn|q k| |d|]; simpl; try (split; assumption).
  - unfold upload_pdf.
    destruct (negb (path_exists f)); [split; assumption|].
    destruct (negb _); [split; assumption|].
    destruct (extracted f) as [text|]; [|split; assumption].
    destruct (negb _); [split; assumption|].
    match goal with |- context [upload_loop f ?d 0 ?cs ?s0 []] =>
      pose proof (upload_loop_documents f d cs 0%nat s0 []) as H;
      destruct (upload_loop f d 0 cs s0 []) as [[s1 ids] ok] end.
    simpl in H. destruct H as [Hd Hdir].
    destruct ok; unfold docs_ok; simpl; rewrite Hd, Hdir.
    + split; [now apply keys_set_nodup|].
      intros d Hd'. apply keys_set_in in Hd'. apply keys_set_in.
      destruct Hd'; auto.
    + split; [assumption|]. intros d Hd'. apply keys_set_in. auto.
  - unfold delete_document.
    destruct (get str_eq_dec (documents s) d) as [info|]; [|split; assumption].
    unfold docs_ok. simpl.
    destruct (delete_chunks_frame (chunk_ids info) s) as (_ & _ & -> & _).
    rewrite delete_chunks_documents_dir. split.
    + now apply keys_del_nodup.
    + intros d' Hd'. apply keys_del_other.
      * apply Hin. eapply keys_del_incl; eauto.
      * intros ->. revert Hd'. now apply keys_del_gone.
Qed.

Lemma reached_docs_ok s : reached s -> docs_ok s.
Proof.
  intros [ops ->].
  assert (H : forall s0, docs_ok s0 -> docs_ok (run ops s0)).
  { induction ops as [|o ops IH]; intros s0 H0; simpl; [exact H0|].
    apply IH. now apply step_docs_ok. }
  apply H. split; simpl; [constructor | intros d []].
Qed.

Lemma list_documents_ids (s : rag_system) :
  map le_document_id (list_documents s) = keys (documents s).
Proof.
  unfold list_documents, keys. rewrite map_map. apply map_ext.
  now intros [d info].
Qed.

(** X8.  [list_documents] never lists a document id twice, and lists as
    many documents as [get_rag_stats] counts. *)
Theorem list_documents_has_distinct_ids s :
  reached s ->
  NoDup (map le_document_id (list_documents s)) /\
  Z.of_nat (List.length (list_documents s)) = total_documents (get_rag_stats s).
Proof.
  intros Hr. rewrite list_documents_ids. split.
  - apply (reached_docs_ok s Hr).
  - unfold list_documents, get_rag_stats, size. simpl. now rewrite length_map.
Qed.

(** X9.  Once [delete_document] has deleted a document, its id is
    unknown: it is not in the documents map, [list_documents] does not list
    it, and deleting it again answers document not found and changes
    nothing. *)
Theorem deleted_document_is_unknown s doc_id :
  reached s ->
  In doc_id (keys (documents s)) ->
  let s' := fst (delete_document s doc_id) in
  (exists doc_name, snd (delete_document s doc_id) = Ok doc_name) /\
  get str_eq_dec (documents s') doc_id = None /\
  ~ In doc_id (map le_document_id (list_documents s')) /\
  delete_document s' doc_id = (s', Err DocumentNotFound).
Proof.
  intros Hr Hin s'. destruct (reached_docs_ok s Hr) as [Hnd _].
  destruct (in_keys_get str_eq_dec _ _ Hin) as [info Hget].
  assert (Hgone : get str_eq_dec (documents s') doc_id = None).
  { unfold s', delete_document. rewrite Hget. simpl.
    destruct (delete_chunks_frame (chunk_ids info) s) as (_ & _ & -> & _).
    now apply get_del_eq. }
  split; [|split; [exact Hgone|split]].
  - unfold delete_document. rewrite Hget. simpl. eauto.
  - rewrite list_documents_ids. now apply (get_none_iff str_eq_dec).
  - unfold delete_document at 1. now rewrite Hgone.
Qed.

Lemma delete_chunks_other (cids : list Z) :
  forall s k,
    ~ In k cids ->
    let s' := fold_left delete_chunk cids s in
    get Z.eq_dec (chunks s') k = get Z.eq_dec (chunks s) k /\
    get Z.eq_dec (chunks_dir s') k = get Z.eq_dec (chunks_dir s) k /\
    get Z.eq_dec (embeddings_dir s') k = get Z.eq_dec (embeddings_dir s) k.
Proof.
  induction cids as [|cid cids IH]; intros s k Hk; simpl; [auto|].
  destruct (IH (delete_chunk s cid) k) as (-> & -> & ->);
    [intros H; apply Hk; now right|].
  simpl. rewrite !get_del_neq; auto; intros ->; apply Hk; now left.
Qed.

(** X10.  [delete_document] touches nothing but the deleted document:
    every other document keeps its record and its text file, every chunk
    that the deleted record does not list keeps its entry, its chunk file
    and its saved embedding, and the counter stays. *)
Theorem delete_document_leaves_the_rest s doc_id info :
  get str_eq_dec (documents s) doc_id = Some info ->
  let s' := fst (delete_document s doc_id) in
  (forall d, d <> doc_id ->
     get str_eq_dec (documents s') d = get str_eq_dec (documents s) d /\
     get str_eq_dec (documents_dir s') d = get str_eq_dec (documents_dir s) d) /\
  (forall k, ~ In k (chunk_ids info) ->
     get Z.eq_dec (chunks s') k = get Z.eq_dec (chunks s) k /\
     get Z.eq_dec (chunks_dir s') k = get Z.eq_dec (chunks_dir s) k /\
     get Z.eq_dec (embeddings_dir s') k = get Z.eq_dec (embeddings_dir s) k) /\
  next_chunk_id s' = next_chunk_id s.
Proof.
  intros Hget s'. unfold s', delete_document. rewrite Hget. simpl.
  destruct (delete_chunks_frame (chunk_ids info) s) as (Hn & _ & Hd & _).
  rewrite Hd, Hn, delete_chunks_documents_dir. split; [|split; [|reflexivity]].
  - intros d Hne. rewrite !get_del_neq; auto.
  - intros k Hk. exact (delete_chunks_other (chunk_ids info) s k Hk).
Qed.

(** X11.  In every state the store can reach, a document of the
    documents map has its text file, so [get_document_content] never
    answers file not found for it: it answers the header of the record
    followed by the stored text.  For an id that is not in the map it
    answers document not found. *)
Theorem document_content_of_a_listed_document s doc_id :
  reached s ->
  (forall info, get str_eq_dec (documents s) doc_id = Some info ->
     exists content,
       get str_eq_dec (documents_dir s) doc_id = Some content /\
       get_document_content s doc_id = header info ++ content) /\
  (get str_eq_dec (documents s) doc_id = None ->
     get_document_content s doc_id
       = of_string "Document not found: " ++ doc_id).
Proof.
  intros Hr. destruct (reached_docs_ok s Hr) as [_ Hfile]. split.
  - intros info Hget.
    destruct (in_keys_get str_eq_dec _ _
                (Hfile doc_id (get_some_in str_eq_dec _ _ _ Hget)))
      as [content Hc].
    exists content. split; [exact Hc|].
    unfold get_document_content. now rewrite Hget, Hc.
  - intros Hnone. unfold get_document_content. now rewrite Hnone.
Qed.

End DocumentsMore.

(** * Rows and chunk ids *)

Section RowsMore.
Context `{C : Collaborators}.

(** The counter is the number of rows, and every saved embedding sits in
    the row of its chunk id. *)
Definition aligned (s : rag_system) : Prop :=
  next_chunk_id s = ntotal s /\
  forall k v, get Z.eq_dec (embeddings_dir s) k = Some v ->
    0 <= k /\ nth_error (index s) (Z.to_nat k) = Some v.

Definition no_delete (o : op) : Prop :=
  match o with Delete _ => False | _ => True end.

Lemma upload_loop_aligned f doc_id :
  forall todo i s ids,
    no_fault_in f i (List.length todo) ->
    aligned s ->
    aligned (fst (fst (upload_loop f doc_id i todo s ids))).
Proof.
  induction todo as [|chunk rest IH]; intros i s ids Hf Hs; [exact Hs|].
  simpl upload_loop.
  rewrite !(raises_at_outside f i (List.length rest)) by exact Hf.
  apply IH.
  { unfold no_fault_in in *. destruct (fault f) as [[j ?]|]; [|exact I].
    simpl in Hf. lia. }
  destruct Hs as [Hn Hrow]. unfold aligned, ntotal in *. simpl.
  rewrite last_length. split; [lia|].
  intros k v Hk. destruct (Z.eq_dec k (next_chunk_id s)) as [->|Hne].
  - rewrite get_set_eq in Hk. injection Hk as <-. split; [lia|].
    rewrite Hn, Nat2Z.id, nth_error_app2, Nat.sub_diag by lia. reflexivity.
  - rewrite get_set_neq in Hk by congruence.
    destruct (Hrow k v Hk) as [H0 Hnth]. split; [exact H0|].
    rewrite nth_error_app1; [exact Hnth|].
    apply nth_error_Some. rewrite Hnth. discriminate.
Qed.

Lemma upload_pdf_cases s f dn :
  fault f = None ->
  fst (upload_pdf s f dn) = s \/
  exists text, readable f text /\
               no_fault_in f 0 (List.length (default_chunks text)).
Proof.
  intros Hf. unfold upload_pdf.
  destruct (path_exists f) eqn:He; [|now left]. cbn [negb].
  destruct (str_eq_dec (suffix_lower f) dot_pdf) as [Hs|]; [|now left].
  cbn [negb].
  destruct (extracted f) as [text|] eqn:Hx; [|now left].
  destruct (truthy (strip text)) eqn:Ht; [|now left].
  right. exists text. split; [repeat split; auto|].
  unfold no_fault_in. now rewrite Hf.
Qed.

Lemma step_aligned (s : rag_system) (o : op) :
  completed o -> no_delete o -> aligned s -> aligned (step s o).
Proof.
  destruct o as [f dn|q k| |d|]; simpl; intros Hc Hd Hs;
    try exact Hs; [|contradiction].
  destruct (upload_pdf_cases s f dn Hc) as [->|(text & Hr & Hn)]; [exact Hs|].
  rewrite (upload_pdf_readable s f dn text Hr). cbv zeta.
  match goal with |- context [upload_loop f ?d 0 ?cs ?s0 []] =>
    pose proof (upload_loop_aligned f d cs 0%nat s0 [] Hn) as H;
    destruct (upload_loop f d 0 cs s0 []) as [[s1 ids] ok] end.
  simpl in H. specialize (H Hs). destruct ok; exact H.
Qed.

(** X12.  As long as nothing is deleted, the id of a chunk is its row:
    after any sequence of completed operations without a deletion, from an
    empty store, the counter equals the number of rows and the vector of
    every live chunk is in the row numbered by the chunk id. *)
Theorem rows_follow_ids_without_deletion (ops : list op) :
  Forall completed ops ->
  Forall no_delete ops ->
  let s := run ops (@empty_system C) in
  next_chunk_id s = ntotal s /\
  forall k, In k (keys (chunks s)) -> row_holds s k k.
Proof.
  intros Hc Hd s.
  assert (Ha : aligned s).
  { unfold s. clear s.
    assert (H : forall s0, aligned s0 -> aligned (run ops s0)).
    { induction ops as [|o ops IH]; intros s0 H0; simpl; [exact H0|].
      inversion Hc; inversion Hd; subst. apply IH; auto.
      now apply step_aligned. }
    apply H. split; [reflexivity|]. intros k v Hk. discriminate. }
  destruct (run_consistent ops empty_system Hc empty_consistent)
    as (_ & _ & _ & Hemb).
  destruct Ha as [Hn Hrow]. split; [exact Hn|].
  intros k Hk. fold s in Hemb.
  destruct (get Z.eq_dec (embeddings_dir s) k) as [v|] eqn:E;
    [|exfalso; exact (Hemb k Hk E)].
  destruct (Hrow k v E) as [H0 Hnth]. split; [exact H0|]. eauto.
Qed.

(** *** What the rebuild does *)

Lemma rebuild_index_rows (s : rag_system) :
  (forall k, In k (keys (chunks s)) ->
     get Z.eq_dec (embeddings_dir s) k <> None) ->
  map Some (rebuild_index s)
  = map (get Z.eq_dec (embeddings_dir s)) (keys (chunks s)).
Proof.
  unfold rebuild_index, keys.
  induction (chunks s) as [|[k m] r IH]; simpl; intros H; [reflexivity|].
  destruct (get Z.eq_dec (embeddings_dir s) k) eqn:E.
  - simpl. f_equal. apply IH. intros k' Hk'. apply H. now right.
  - exfalso. apply (H k); [now left | exact E].
Qed.

(** X13.  After [delete_document] has deleted a document, the rows of
    the index follow the order of the chunk map and not the chunk ids: row
    number [i] holds the saved embedding of the [i]-th key of the chunk
    map. *)
Theorem rebuilt_rows_follow_chunk_map_order s doc_id info :
  reachable s ->
  get str_eq_dec (documents s) doc_id = Some info ->
  let s' := fst (delete_document s doc_id) in
  map Some (index s')
  = map (get Z.eq_dec (embeddings_dir s')) (keys (chunks s')).
Proof.
  intros Hr Hget s'. destruct (reachable_consistent s Hr) as [_ Hm].
  pose proof (delete_chunks_meta_ok (chunk_ids info) s Hm) as (_ & _ & Hemb).
  unfold s', delete_document. rewrite Hget. simpl.
  apply (rebuild_index_rows
           (with_documents
              (with_documents_dir (fold_left delete_chunk (chunk_ids info) s) _) _)).
  exact Hemb.
Qed.

End RowsMore.

(** * Document records and their chunks *)

Section RecordsMore.
Context `{C : Collaborators}.

(** Every document record counts and lists distinct chunk ids that are
    all in the chunk map, and no two records share a chunk id. *)
Definition records_ok (s : rag_system) : Prop :=
  forall d info,
    get str_eq_dec (documents s) d = Some info ->
    chunk_count info = Z.of_nat (List.length (chunk_ids info)) /\
    NoDup (chunk_ids info) /\
    (forall k, In k (chunk_ids info) -> In k (keys (chunks s))) /\
    (forall d' info',
       d' <> d -> get str_eq_dec (documents s) d' = Some info' ->
       forall k, In k (chunk_ids info) -> ~ In k (chunk_ids info')).

Lemma id_range_nodup (n : Z) (len : nat) : NoDup (id_range n len).
Proof.
  revert n. induction len as [|len IH]; intros n; [constructor|].
  rewrite id_range_S. constructor; [|apply IH].
  intros H. apply in_id_range in H. lia.
Qed.

Lemma in_id_range_nth (n k : Z) (len : nat) :
  In k (id_range n len) ->
  exists t, (t < len)%nat /\ k = n + Z.of_nat t.
Proof.
  unfold id_range. intros H. apply in_map_iff in H.
  destruct H as (t & <- & Ht). apply in_seq in Ht. exists t. split; [lia | reflexivity].
Qed.

Lemma delete_chunks_keys_incl (cids : list Z) :
  forall s k,
    In k (keys (chunks (fold_left delete_chunk cids s))) ->
    In k (keys (chunks s)).
Proof.
  induction cids as [|cid cids IH]; intros s k H; simpl in H; [exact H|].
  apply IH in H. simpl in H. eapply keys_del_incl; eauto.
Qed.

Lemma delete_chunks_keeps (cids : list Z) :
  forall s k,
    In k (keys (chunks s)) -> ~ In k cids ->
    In k (keys (chunks (fold_left delete_chunk cids s))).
Proof.
  induction cids as [|cid cids IH]; intros s k Hin Hk; simpl; [exact Hin|].
  apply IH; [|intros H; apply Hk; now right].
  simpl. apply keys_del_other; [exact Hin|]. intros ->. apply Hk. now left.
Qed.

Lemma delete_chunks_nodup (cids : list Z) :
  forall s, NoDup (keys (chunks s)) ->
            NoDup (keys (chunks (fold_left delete_chunk cids s))).
Proof.
  induction cids as [|cid cids IH]; intros s H; simpl; [exact H|].
  apply IH. simpl. now apply keys_del_nodup.
Qed.

Lemma delete_chunks_gone (cids : list Z) :
  forall s k,
    NoDup (keys (chunks s)) -> In k cids ->
    ~ In k (keys (chunks (fold_left delete_chunk cids s))).
Proof.
  induction cids as [|cid cids IH]; intros s k Hnd Hin; [destruct Hin|].
  destruct Hin as [->|Hin]; simpl.
  - intros H. apply delete_chunks_keys_incl in H. simpl in H.
    revert H. now apply keys_del_gone.
  - apply IH; [|exact Hin]. simpl. now apply keys_del_nodup.
Qed.

Lemma delete_chunks_size (cids : list Z) :
  forall s,
    NoDup cids ->
    (forall k, In k cids -> In k (keys (chunks s))) ->
    (List.length (chunks (fold_left delete_chunk cids s)) + List.length cids
     = List.length (chunks s))%nat.
Proof.
  induction cids as [|cid cids IH]; intros s Hnd Hin; simpl; [lia|].
  inversion Hnd as [|? ? Hni Hnd']; subst.
  rewrite Nat.add_succ_r, IH; [|exact Hnd'|].
  - simpl. apply length_del_in. apply Hin. now left.
  - intros k Hk. simpl. apply keys_del_other; [apply Hin; now right|].
    intros ->. contradiction.
Qed.

Lemma step_records_ok (s : rag_system) (o : op) :
  completed o ->
  consistent s -> NoDup (keys (documents s)) -> records_ok s ->
  records_ok (step s o).
Proof.
  intros Hc (_ & _ & Hlt & _) Hnd Hrec.
  destruct o as [f dn|q k| |d|]; simpl; try exact Hrec.
  - destruct (upload_pdf_cases s f dn Hc) as [->|(text & Hr & Hn)]; [exact Hrec|].
    destruct (upload_pdf_ok_gen s f dn text Hr Hn)
      as (s' & info & Hup & _ & _ & Hdocs & _ & Hids & Hcnt & _ & Hnew & Hold).
    rewrite Hup. simpl.
    assert (Hkeep : forall k, In k (keys (chunks s)) -> In k (keys (chunks s'))).
    { intros k Hk. destruct (in_keys_get Z.eq_dec _ _ Hk) as [m Hm].
      apply (get_some_in Z.eq_dec _ _ m).
      destruct (Hold k (Hlt k Hk)) as (-> & _). exact Hm. }
    assert (Hfresh : forall k, In k (chunk_ids info) ->
              next_chunk_id s <= k /\ In k (keys (chunks s'))).
    { intros k Hk. rewrite Hids in Hk.
      destruct (in_id_range_nth _ _ _ Hk) as (t & Ht & ->). split; [lia|].
      destruct (nth_error (default_chunks text) t) as [chunk|] eqn:E;
        [|apply nth_error_None in E; lia].
      destruct (Hnew t chunk E) as (Hg & _).
      exact (get_some_in Z.eq_dec _ _ _ Hg). }
    intros d0 info0 H0. rewrite Hdocs in H0.
    destruct (str_eq_dec d0 (md5_hexdigest (path_str f))) as [->|Hne].
    + rewrite get_set_eq in H0. injection H0 as <-.
      split; [rewrite Hcnt, Hids; unfold id_range;
              now rewrite length_map, length_seq|].
      split; [rewrite Hids; apply id_range_nodup|].
      split; [intros k Hk; apply (Hfresh k Hk)|].
      intros d' info' Hd' H' k Hk Hk'. rewrite Hdocs in H'.
      rewrite get_set_neq in H' by congruence.
      destruct (Hrec d' info' H') as (_ & _ & Hin' & _).
      pose proof (Hlt k (Hin' k Hk')). destruct (Hfresh k Hk). lia.
    + rewrite get_set_neq in H0 by congruence.
      destruct (Hrec d0 info0 H0) as (Hc0 & Hnd0 & Hin0 & Hdis0).
      split; [exact Hc0|]. split; [exact Hnd0|].
      split; [intros k Hk; apply Hkeep, Hin0, Hk|].
      intros d' info' Hd' H' k Hk. rewrite Hdocs in H'.
      destruct (str_eq_dec d' (md5_hexdigest (path_str f))) as [->|Hne'].
      * rewrite get_set_eq in H'. injection H' as <-. intros Hk'.
        pose proof (Hlt k (Hin0 k Hk)). destruct (Hfresh k Hk'). lia.
      * rewrite get_set_neq in H' by congruence. exact (Hdis0 d' info' Hd' H' k Hk).
  - unfold delete_document.
    destruct (get str_eq_dec (documents s) d) as [info|] eqn:Hget; [|exact Hrec].
    unfold records_ok. simpl.
    destruct (delete_chunks_frame (chunk_ids info) s) as (_ & _ & Hd & _).
    rewrite Hd. intros d0 info0 H0.
    assert (Hne : d0 <> d).
    { intros ->. rewrite get_del_eq in H0 by exact Hnd. discriminate. }
    rewrite get_del_neq in H0 by congruence.
    destruct (Hrec d0 info0 H0) as (Hc0 & Hnd0 & Hin0 & Hdis0).
    split; [exact Hc0|]. split; [exact Hnd0|]. split.
    + intros k Hk. apply delete_chunks_keeps; [apply Hin0, Hk|].
      exact (Hdis0 d info (not_eq_sym Hne) Hget k Hk).
    + intros d' info' Hd' H' k Hk.
      destruct (str_eq_dec d' d) as [->|Hne'].
      * rewrite get_del_eq in H' by exact Hnd. discriminate.
      * rewrite get_del_neq in H' by congruence.
        exact (Hdis0 d' info' Hd' H' k Hk).
Qed.

Lemma reachable_reached s : reachable s -> reached s.
Proof. intros (ops & _ & ->). now exists ops. Qed.

Lemma reachable_records_ok s : reachable s -> records_ok s.
Proof.
  intros (ops & Hc & ->).
  assert (H : forall s0,
            consistent s0 -> docs_ok s0 -> records_ok s0 ->
            records_ok (run ops s0)).
  { induction ops as [|o ops IH]; intros s0 H1 H2 H3; simpl; [exact H3|].
    inversion Hc; subst. apply IH; auto.
    - now apply step_consistent.
    - now apply step_docs_ok.
    - apply step_records_ok; auto. apply H2. }
  apply H.
  - apply empty_consistent.
  - split; simpl; [constructor | intros d []].
  - intros d info Hd. discriminate.
Qed.

(** X14.  In a store reached by completed operations, deleting a
    document removes every chunk its record lists from the chunk map, and
    the chunk count of [get_rag_stats] and the number of rows of the index
    both drop by exactly the record's [chunk_count]. *)
Theorem delete_document_drops_chunk_count s doc_id info :
  reachable s ->
  get str_eq_dec (documents s) doc_id = Some info ->
  let s' := fst (delete_document s doc_id) in
  total_chunks (get_rag_stats s')
    = total_chunks (get_rag_stats s) - chunk_count info /\
  ntotal s' = ntotal s - chunk_count info /\
  forall k, In k (chunk_ids info) -> get Z.eq_dec (chunks s') k = None.
Proof.
  intros Hr Hget s'.
  pose proof (reachable_consistent s Hr) as Hcons.
  destruct (reachable_records_ok s Hr doc_id info Hget) as (Hcnt & Hnd & Hin & _).
  assert (Hcons' : consistent s').
  { exact (step_consistent s (Delete doc_id) I Hcons). }
  assert (Hchunks : chunks s' = chunks (fold_left delete_chunk (chunk_ids info) s)).
  { unfold s', delete_document. now rewrite Hget. }
  pose proof (delete_chunks_size (chunk_ids info) s Hnd Hin) as Hsize.
  assert (Htot : size (chunks s') = size (chunks s) - chunk_count info).
  { unfold size. rewrite Hchunks, Hcnt. lia. }
  split; [exact Htot|]. split.
  - destruct Hcons as [Hl _]. destruct Hcons' as [Hl' _].
    unfold ntotal, size in *. lia.
  - intros k Hk. rewrite Hchunks. apply (get_none_iff Z.eq_dec).
    apply delete_chunks_gone; [apply Hcons | exact Hk].
Qed.

End RecordsMore.

(** * What a search hit carries *)

Section SearchMore.
Context `{C : Collaborators}.

Lemma in_join_hit (s : rag_system) (h : score * Z) (r : search_hit) :
  In r (join_hit s h) ->
  hit_chunk_id r = snd h /\ hit_score r = fst h /\
  hit_chunk_id r <> -1 /\
  get Z.eq_dec (chunks_dir s) (hit_chunk_id r) = Some (hit_text r) /\
  hit_document_id r
    = option_map document_id (get Z.eq_dec (chunks s) (hit_chunk_id r)) /\
  hit_chunk_index r
    = option_map chunk_index (get Z.eq_dec (chunks s) (hit_chunk_id r)).
Proof.
  destruct h as [sc idx]. unfold join_hit.
  destruct (idx =? -1) eqn:E; [intros []|]. apply Z.eqb_neq in E.
  destruct (get Z.eq_dec (chunks_dir s) idx) as [text|] eqn:Et; [|intros []].
  intros [<-|[]]. simpl. repeat split; auto.
Qed.

Lemma search_hit_has_chunk_file s query top_k results r :
  search_documents s query top_k = Ok results ->
  In r results ->
  hit_chunk_id r <> -1 /\
  get Z.eq_dec (chunks_dir s) (hit_chunk_id r) = Some (hit_text r) /\
  hit_document_id r
    = option_map document_id (get Z.eq_dec (chunks s) (hit_chunk_id r)) /\
  hit_chunk_index r
    = option_map chunk_index (get Z.eq_dec (chunks s) (hit_chunk_id r)).
Proof.
  unfold search_documents. destruct (ntotal s =? 0); [discriminate|].
  destruct (index_search _ _ _) as [hits|]; [|discriminate].
  intros H Hr. injection H as <-.
  apply in_flat_map in Hr. destruct Hr as (h & _ & Hr).
  destruct (in_join_hit s h r Hr) as (_ & _ & H1 & H2 & H3 & H4). auto.
Qed.

(** X15.  Every hit of a successful search has a chunk id other than
    [-1], carries the content of the chunk file of that id as its text, and
    takes its document id and chunk index from the chunk map entry of that
    id (none when there is no entry): a row whose chunk file is missing is
    never reported. *)
Theorem search_hits_come_with_their_chunk_file s query top_k results :
  search_documents s query top_k = Ok results ->
  Forall (fun r =>
            hit_chunk_id r <> -1 /\
            get Z.eq_dec (chunks_dir s) (hit_chunk_id r) = Some (hit_text r) /\
            hit_document_id r
              = option_map document_id
                  (get Z.eq_dec (chunks s) (hit_chunk_id r)) /\
            hit_chunk_index r
              = option_map chunk_index
                  (get Z.eq_dec (chunks s) (hit_chunk_id r)))
         results.
Proof.
  intros H. apply Forall_forall. intros r Hr.
  exact (search_hit_has_chunk_file s query top_k results r H Hr).
Qed.





End SearchMore.

(** * The further properties on the concrete store *)

Module FlatMore.

(** A path at which there is no file. *)
Definition missing_pdf : pdf_file :=
  {| path_str := of_string "none.pdf"; path_exists := false;
     suffix_lower := dot_pdf; stem := of_string "none";
     extracted := None; clock := fun _ => of_string "now"; fault := None |}.

Definition two_uploads : list op :=
  [Upload (Flat.pdf "a.pdf" (of_string "alpha") None) None;
   Upload (Flat.pdf "b.pdf" (of_string "beta") None) None].


End FlatMore.

Lemma before_delete_reachable : reachable Flat.before_delete.
Proof. exists FlatMore.two_uploads. split; [repeat constructor | reflexivity]. Qed.

Lemma before_delete_reached : reached Flat.before_delete.
Proof. now exists FlatMore.two_uploads. Qed.

Lemma rejected_upload_leaves_store_witness :
  fst (upload_pdf empty_system FlatMore.missing_pdf None) = empty_system.
Proof.
  apply (rejected_upload_leaves_store empty_system FlatMore.missing_pdf None
           FileNotFound).
  - reflexivity.
  - left. discriminate.
Defined.

Lemma successful_upload_accounts_for_its_chunks_witness :
  let f := Flat.pdf "a.pdf" (of_string "alpha") None in
  let p := {| up_document_id := of_string "a.pdf";
              up_document_name := of_string "doc";
              chunks_created := 1 |} in
  let s' := fst (upload_pdf empty_system f None) in
  up_document_id p = md5_hexdigest (path_str f) /\
  0 <= chunks_created p /\
  ntotal s' = ntotal empty_system + chunks_created p /\
  next_chunk_id s' = next_chunk_id empty_system + chunks_created p /\
  exists info,
    get str_eq_dec (documents s') (up_document_id p) = Some info /\
    name info = up_document_name p /\
    chunk_count info = chunks_created p /\
    chunk_ids info =
      id_range (next_chunk_id empty_system) (Z.to_nat (chunks_created p)).
Proof.
  intros f p.
  exact (successful_upload_accounts_for_its_chunks empty_system f None p eq_refl).
Defined.

Lemma list_documents_has_distinct_ids_witness :
  NoDup (map le_document_id (list_documents Flat.before_delete)) /\
  Z.of_nat (List.length (list_documents Flat.before_delete))
    = total_documents (get_rag_stats Flat.before_delete).
Proof.
  apply list_documents_has_distinct_ids. exact before_delete_reached.
Defined.

Lemma deleted_document_is_unknown_witness :
  let s' := fst (delete_document Flat.before_delete (of_string "a.pdf")) in
  (exists doc_name,
     snd (delete_document Flat.before_delete (of_string "a.pdf")) = Ok doc_name) /\
  get str_eq_dec (documents s') (of_string "a.pdf") = None /\
  ~ In (of_string "a.pdf") (map le_document_id (list_documents s')) /\
  delete_document s' (of_string "a.pdf") = (s', Err DocumentNotFound).
Proof.
  apply (deleted_document_is_unknown Flat.before_delete (of_string "a.pdf")).
  - exact before_delete_reached.
  - left. reflexivity.
Defined.

Lemma delete_document_leaves_the_rest_witness :
  exists info,
    get str_eq_dec (documents Flat.before_delete) (of_string "a.pdf") = Some info /\
    let s' := fst (delete_document Flat.before_delete (of_string "a.pdf")) in
    (forall d, d <> of_string "a.pdf" ->
       get str_eq_dec (documents s') d
         = get str_eq_dec (documents Flat.before_delete) d /\
       get str_eq_dec (documents_dir s') d
         = get str_eq_dec (documents_dir Flat.before_delete) d) /\
    (forall k, ~ In k (chunk_ids info) ->
       get Z.eq_dec (chunks s') k = get Z.eq_dec (chunks Flat.before_delete) k /\
       get Z.eq_dec (chunks_dir s') k
         = get Z.eq_dec (chunks_dir Flat.before_delete) k /\
       get Z.eq_dec (embeddings_dir s') k
         = get Z.eq_dec (embeddings_dir Flat.before_delete) k) /\
    next_chunk_id s' = next_chunk_id Flat.before_delete.
Proof.
  eexists. split; [reflexivity|].
  apply (delete_document_leaves_the_rest Flat.before_delete (of_string "a.pdf")).
  reflexivity.
Defined.

Lemma document_content_of_a_listed_document_witness :
  (forall info,
     get str_eq_dec (documents Flat.before_delete) (of_string "b.pdf") = Some info ->
     exists content,
       get str_eq_dec (documents_dir Flat.before_delete) (of_string "b.pdf")
         = Some content /\
       Resources.get_document_content Flat.before_delete (of_string "b.pdf")
         = Resources.header info ++ content) /\
  (get str_eq_dec (documents Flat.before_delete) (of_string "b.pdf") = None ->
   Resources.get_document_content Flat.before_delete (of_string "b.pdf")
     = of_string "Document not found: " ++ of_string "b.pdf").
Proof.
  apply document_content_of_a_listed_document. exact before_delete_reached.
Defined.

Lemma rows_follow_ids_without_deletion_witness :
  let s := run FlatMore.two_uploads empty_system in
  next_chunk_id s = ntotal s /\
  forall k, In k (keys (chunks s)) -> row_holds s k k.
Proof.
  apply (rows_follow_ids_without_deletion FlatMore.two_uploads);
    repeat constructor.
Defined.

Lemma rebuilt_rows_follow_chunk_map_order_witness :
  let s' := fst (delete_document Flat.before_delete (of_string "a.pdf")) in
  map Some (index s')
  = map (get Z.eq_dec (embeddings_dir s')) (keys (chunks s')).
Proof.
  eapply (rebuilt_rows_follow_chunk_map_order Flat.before_delete
            (of_string "a.pdf")).
  - exact before_delete_reachable.
  - reflexivity.
Defined.

Lemma delete_document_drops_chunk_count_witness :
  exists info,
    get str_eq_dec (documents Flat.before_delete) (of_string "a.pdf") = Some info /\
    let s' := fst (delete_document Flat.before_delete (of_string "a.pdf")) in
    total_chunks (get_rag_stats s')
      = total_chunks (get_rag_stats Flat.before_delete) - chunk_count info /\
    ntotal s' = ntotal Flat.before_delete - chunk_count info /\
    forall k, In k (chunk_ids info) -> get Z.eq_dec (chunks s') k = None.
Proof.
  eexists. split; [reflexivity|].
  apply (delete_document_drops_chunk_count Flat.before_delete (of_string "a.pdf")).
  - exact before_delete_reachable.
  - reflexivity.
Defined.

Lemma search_hits_come_with_their_chunk_file_witness :
  exists results,
    search_documents Flat.two_equal_texts (of_string "same") 2 = Ok results /\
    Forall (fun r =>
              hit_chunk_id r <> -1 /\
              get Z.eq_dec (chunks_dir Flat.two_equal_texts) (hit_chunk_id r)
                = Some (hit_text r) /\
              hit_document_id r
                = option_map document_id
                    (get Z.eq_dec (chunks Flat.two_equal_texts) (hit_chunk_id r)) /\
              hit_chunk_index r
                = option_map chunk_index
                    (get Z.eq_dec (chunks Flat.two_equal_texts) (hit_chunk_id r)))
           results.
Proof.
  eexists. split; [vm_compute; reflexivity|].
  apply (search_hits_come_with_their_chunk_file Flat.two_equal_texts
           (of_string "same") 2).
  reflexivity.
Defined.

